(** * Shallow embedding of the meilisearch_sdk request dispatcher, settings
    builders, document queries, the IndexConfig derive macro and the task
    poller, with the properties of their specification. *)

From Stdlib Require Import String Ascii List Bool NArith Lia.
From stdpp Require Import base gmap strings.

Import ListNotations.
Open Scope string_scope.

(** Rust's [Result<T, E>]. *)
Inductive result (T E : Type) : Type :=
| Ok (t : T)
| Err (e : E).
Arguments Ok {T E} t.
Arguments Err {T E} e.

(** ** src/src/request.rs *)
Module Request.

(** [http::Method], restricted to the verbs the SDK uses. *)
Inductive HttpMethod : Type := GET | POST | PATCH | PUT | DELETE.

(** [request::method::Method<Q, B>]. *)
Inductive Method (Q B : Type) : Type :=
| Get (query : Q)
| Post (query : Q) (body : B)
| Patch (query : Q) (body : B)
| Put (query : Q) (body : B)
| Delete (query : Q).
Arguments Get {Q B} query.
Arguments Post {Q B} query body.
Arguments Patch {Q B} query body.
Arguments Put {Q B} query body.
Arguments Delete {Q B} query.

(** [Method::query]. *)
Definition query {Q B} (m : Method Q B) : Q :=
  match m with
  | Get query => query
  | Post query _ => query
  | Patch query _ => query
  | Put query _ => query
  | Delete query => query
  end.

(** [Method::http_method]. *)
Definition http_method {Q B} (m : Method Q B) : HttpMethod :=
  match m with
  | Get _ => GET
  | Post _ _ => POST
  | Patch _ _ => PATCH
  | Put _ _ => PUT
  | Delete _ => DELETE
  end.

(** Modelled from the spec: [MeilisearchError] of errors.rs (not under
    src/): a structured service error carrying a machine-readable error
    code, a human message and a link. *)
Record MeilisearchError : Type := {
  error_message : string;
  error_code : string;
  error_link : string
}.

(** [MeilisearchCommunicationError], as constructed in [parse_response]. *)
Record MeilisearchCommunicationError : Type := {
  status_code : N;
  message : option string;
  url : string
}.

(** A [serde_json::Error], kept as its message. *)
Definition SerdeJsonError := string.

(** Modelled from the spec: the [Error] taxonomy of errors.rs (not under
    src/): parse errors, service errors, communication errors, transport
    errors, query-serialization errors and the poller's timeout. *)
Inductive Error : Type :=
| ParseError (e : SerdeJsonError)
| Meilisearch (e : MeilisearchError)
| MeilisearchCommunication (e : MeilisearchCommunicationError)
| Yaup (msg : string)
| HttpError (msg : string)
| Timeout.

(** Modelled from the spec: [impl From<MeilisearchError> for Error] of
    errors.rs (not under src/): the structured error becomes a service
    error, unchanged. *)
Definition error_from_meilisearch (e : MeilisearchError) : Error :=
  Meilisearch e.

Section ParseResponse.
(** The deserializers [from_str::<Output>] and
    [from_str::<MeilisearchError>] of serde_json. *)
Context {Output : Type}.
Variable from_str_output : string -> result Output SerdeJsonError.
Variable from_str_error : string -> result MeilisearchError SerdeJsonError.

(** [RequestClient::parse_response]. *)
Definition parse_response (status_code expected_status_code : N)
    (body : string) (url : string) : result Output Error :=
  let body := if String.eqb body "" then "null" else body in
  if N.eqb status_code expected_status_code then
    match from_str_output body with
    | Ok output => Ok output
    | Err e => Err (ParseError e)
    end
  else
    match from_str_error body with
    | Ok e => Err (error_from_meilisearch e)
    | Err e =>
        if N.leb 400 status_code then
          Err (MeilisearchCommunication
                 {| status_code := status_code; message := None; url := url |})
        else Err (ParseError e)
    end.
End ParseResponse.

(** [qualified_version]; [option_env!("CARGO_PKG_VERSION")] is the
    argument [VERSION]. *)
Definition qualified_version (VERSION : option string) : string :=
  "Meilisearch Rust (v" ++ default "unknown" VERSION ++ ")".

Section Dispatch.
Context {Q B : Type}.
(** [yaup::to_string] on the query type. *)
Variable yaup_to_string : Q -> result string Error.

(** [add_query_parameters]. *)
Definition add_query_parameters (url : string) (q : Q) : result string Error :=
  match yaup_to_string q with
  | Err e => Err e
  | Ok query => Ok (if String.eqb query "" then url else url ++ "?" ++ query)
  end.

(** Modelled from the spec: the builder of the native [RequestClient]
    implementation (native_client.rs, not under src/), following the
    transport contract of section 4.2: a URL, a verb and the headers in
    the order they were attached. *)
Record RequestBuilder : Type := {
  rb_url : string;
  rb_method : HttpMethod;
  rb_headers : list (string * string)
}.

(** A prepared request: the builder's data and the body, if any. *)
Record PreparedRequest : Type := {
  pr_url : string;
  pr_method : HttpMethod;
  pr_headers : list (string * string);
  pr_body : option B
}.

(** Modelled from the spec: [RequestClient::new]. *)
Definition new (url : string) : RequestBuilder :=
  {| rb_url := url; rb_method := GET; rb_headers := [] |}.

Definition add_header (rb : RequestBuilder) (name value : string) : RequestBuilder :=
  {| rb_url := rb_url rb; rb_method := rb_method rb;
     rb_headers := rb_headers rb ++ [(name, value)] |}.

(** Modelled from the spec: [with_authorization_header]. *)
Definition with_authorization_header (rb : RequestBuilder) (bearer_token_value : string) :=
  add_header rb "Authorization" bearer_token_value.

(** Modelled from the spec: [with_user_agent_header]. *)
Definition with_user_agent_header (rb : RequestBuilder) (user_agent_value : string) :=
  add_header rb "User-Agent" user_agent_value.

(** Modelled from the spec: [with_method]. *)
Definition with_method (rb : RequestBuilder) (m : HttpMethod) : RequestBuilder :=
  {| rb_url := rb_url rb; rb_method := m; rb_headers := rb_headers rb |}.

(** Modelled from the spec: [add_body]; the body, present only for
    Post, Patch and Put, is attached with its content type. *)
Definition add_body (rb : RequestBuilder) (m : Method Q B) (content_type : string)
    : PreparedRequest :=
  let with_body b :=
    {| pr_url := rb_url rb; pr_method := rb_method rb;
       pr_headers := rb_headers rb ++ [("Content-Type", content_type)];
       pr_body := Some b |} in
  let without_body :=
    {| pr_url := rb_url rb; pr_method := rb_method rb;
       pr_headers := rb_headers rb; pr_body := None |} in
  match m with
  | Get _ => without_body
  | Post _ b => with_body b
  | Patch _ b => with_body b
  | Put _ b => with_body b
  | Delete _ => without_body
  end.

(** Lines 116-124 of [RequestClient::request]: building the request. *)
Definition build_request (VERSION : option string) (url : string)
    (apikey : option string) (m : Method Q B) (content_type : string)
    : result PreparedRequest Error :=
  match add_query_parameters url (query m) with
  | Err e => Err e
  | Ok full_url =>
      let request_client :=
        with_user_agent_header (with_method (new full_url) (http_method m))
          (qualified_version VERSION) in
      let request_client :=
        match apikey with
        | Some apikey => with_authorization_header request_client ("Bearer " ++ apikey)
        | None => request_client
        end in
      Ok (add_body request_client m content_type)
  end.

(** [RequestClient::request]: [send_request] returns the status code and
    the result of [response_to_text]. *)
Definition request {Output : Type}
    (from_str_output : string -> result Output SerdeJsonError)
    (from_str_error : string -> result MeilisearchError SerdeJsonError)
    (send_request : PreparedRequest -> result (N * result string Error) Error)
    (VERSION : option string) (url : string) (apikey : option string)
    (m : Method Q B) (content_type : string) (expected_status_code : N)
    : result Output Error :=
  match build_request VERSION url apikey m content_type with
  | Err e => Err e
  | Ok req =>
      match send_request req with
      | Err e => Err e
      | Ok (status, text) =>
          match text with
          | Err e => Err e
          | Ok text =>
              parse_response from_str_output from_str_error status
                expected_status_code text url
          end
      end
  end.
End Dispatch.

(** The values of all headers named [name], in order. *)
Definition header_values (name : string) (hs : list (string * string)) : list string :=
  map snd (List.filter (fun h => String.eqb (fst h) name) hs).

End Request.

(** ** src/src/settings.rs *)
Module Settings.

(** [PaginationSetting]. *)
Record PaginationSetting : Type := { max_total_hits : N }.

(** [FacetingSettings]. *)
Record FacetingSettings : Type := { max_values_per_facet : N }.

(** [Settings]; [HashMap<String, Vec<String>>] is a [gmap]. *)
Record Settings : Type := {
  synonyms : option (gmap string (list string));
  stop_words : option (list string);
  ranking_rules : option (list string);
  filterable_attributes : option (list string);
  sortable_attributes : option (list string);
  distinct_attribute : option string;
  searchable_attributes : option (list string);
  displayed_attributes : option (list string);
  pagination : option PaginationSetting;
  faceting : option FacetingSettings
}.

(** [Settings::new]. *)
Definition new : Settings := {|
  synonyms := None; stop_words := None; ranking_rules := None;
  filterable_attributes := None; sortable_attributes := None;
  distinct_attribute := None; searchable_attributes := None;
  displayed_attributes := None; pagination := None; faceting := None |}.

(** [v.as_ref().to_string()] collected over an iterator of strings. *)
Definition collect_strings (vs : list string) : list string :=
  map (fun v => v) vs.

(** [Settings::with_synonyms], on string keys and values. *)
Definition with_synonyms (self : Settings) (syn : gmap string (list string)) : Settings :=
  {| synonyms := Some (fmap collect_strings syn);
     stop_words := stop_words self; ranking_rules := ranking_rules self;
     filterable_attributes := filterable_attributes self;
     sortable_attributes := sortable_attributes self;
     distinct_attribute := distinct_attribute self;
     searchable_attributes := searchable_attributes self;
     displayed_attributes := displayed_attributes self;
     pagination := pagination self; faceting := faceting self |}.

(** [Settings::with_stop_words]. *)
Definition with_stop_words (self : Settings) (ws : list string) : Settings :=
  {| synonyms := synonyms self;
     stop_words := Some (collect_strings ws); ranking_rules := ranking_rules self;
     filterable_attributes := filterable_attributes self;
     sortable_attributes := sortable_attributes self;
     distinct_attribute := distinct_attribute self;
     searchable_attributes := searchable_attributes self;
     displayed_attributes := displayed_attributes self;
     pagination := pagination self; faceting := faceting self |}.

(** [Settings::with_pagination]. *)
Definition with_pagination (self : Settings) (p : PaginationSetting) : Settings :=
  {| synonyms := synonyms self;
     stop_words := stop_words self; ranking_rules := ranking_rules self;
     filterable_attributes := filterable_attributes self;
     sortable_attributes := sortable_attributes self;
     distinct_attribute := distinct_attribute self;
     searchable_attributes := searchable_attributes self;
     displayed_attributes := displayed_attributes self;
     pagination := Some p; faceting := faceting self |}.

(** [Settings::with_ranking_rules]. *)
Definition with_ranking_rules (self : Settings) (rs : list string) : Settings :=
  {| synonyms := synonyms self;
     stop_words := stop_words self; ranking_rules := Some (collect_strings rs);
     filterable_attributes := filterable_attributes self;
     sortable_attributes := sortable_attributes self;
     distinct_attribute := distinct_attribute self;
     searchable_attributes := searchable_attributes self;
     displayed_attributes := displayed_attributes self;
     pagination := pagination self; faceting := faceting self |}.

(** [Settings::with_filterable_attributes]. *)
Definition with_filterable_attributes (self : Settings) (fs : list string) : Settings :=
  {| synonyms := synonyms self;
     stop_words := stop_words self; ranking_rules := ranking_rules self;
     filterable_attributes := Some (collect_strings fs);
     sortable_attributes := sortable_attributes self;
     distinct_attribute := distinct_attribute self;
     searchable_attributes := searchable_attributes self;
     displayed_attributes := displayed_attributes self;
     pagination := pagination self; faceting := faceting self |}.

(** [Settings::with_sortable_attributes]. *)
Definition with_sortable_attributes (self : Settings) (ss : list string) : Settings :=
  {| synonyms := synonyms self;
     stop_words := stop_words self; ranking_rules := ranking_rules self;
     filterable_attributes := filterable_attributes self;
     sortable_attributes := Some (collect_strings ss);
     distinct_attribute := distinct_attribute self;
     searchable_attributes := searchable_attributes self;
     displayed_attributes := displayed_attributes self;
     pagination := pagination self; faceting := faceting self |}.

(** [Settings::with_distinct_attribute]. *)
Definition with_distinct_attribute (self : Settings) (d : string) : Settings :=
  {| synonyms := synonyms self;
     stop_words := stop_words self; ranking_rules := ranking_rules self;
     filterable_attributes := filterable_attributes self;
     sortable_attributes := sortable_attributes self;
     distinct_attribute := Some d;
     searchable_attributes := searchable_attributes self;
     displayed_attributes := displayed_attributes self;
     pagination := pagination self; faceting := faceting self |}.

(** [Settings::with_searchable_attributes]. *)
Definition with_searchable_attributes (self : Settings) (ss : list string) : Settings :=
  {| synonyms := synonyms self;
     stop_words := stop_words self; ranking_rules := ranking_rules self;
     filterable_attributes := filterable_attributes self;
     sortable_attributes := sortable_attributes self;
     distinct_attribute := distinct_attribute self;
     searchable_attributes := Some (collect_strings ss);
     displayed_attributes := displayed_attributes self;
     pagination := pagination self; faceting := faceting self |}.

(** [Settings::with_displayed_attributes]. *)
Definition with_displayed_attributes (self : Settings) (ds : list string) : Settings :=
  {| synonyms := synonyms self;
     stop_words := stop_words self; ranking_rules := ranking_rules self;
     filterable_attributes := filterable_attributes self;
     sortable_attributes := sortable_attributes self;
     distinct_attribute := distinct_attribute self;
     searchable_attributes := searchable_attributes self;
     displayed_attributes := Some (collect_strings ds);
     pagination := pagination self; faceting := faceting self |}.

(** [Settings::with_faceting]; [faceting.clone()] is the value itself. *)
Definition with_faceting (self : Settings) (f : FacetingSettings) : Settings :=
  {| synonyms := synonyms self;
     stop_words := stop_words self; ranking_rules := ranking_rules self;
     filterable_attributes := filterable_attributes self;
     sortable_attributes := sortable_attributes self;
     distinct_attribute := distinct_attribute self;
     searchable_attributes := searchable_attributes self;
     displayed_attributes := displayed_attributes self;
     pagination := pagination self; faceting := Some f |}.

(** The values [#[derive(Serialize)]] emits for a [Settings] field: a
    string-to-strings map, a string sequence, a string, or a nested
    struct of [usize] fields. *)
Inductive SettingsValue : Type :=
| SMap (m : gmap string (list string))
| SStrs (vs : list string)
| SStr (v : string)
| SObj (kvs : list (string * N)).

(** The serialized entries of [Settings], in declaration order: every
    field is [skip_serializing_if = "Option::is_none"] and
    [rename_all = "camelCase"] (also on [PaginationSetting] and
    [FacetingSettings]). *)
Definition serialize (s : Settings) : list (string * SettingsValue) :=
  (match synonyms s with Some m => [("synonyms", SMap m)] | None => [] end ++
   match stop_words s with Some v => [("stopWords", SStrs v)] | None => [] end ++
   match ranking_rules s with Some v => [("rankingRules", SStrs v)] | None => [] end ++
   match filterable_attributes s with
   | Some v => [("filterableAttributes", SStrs v)] | None => [] end ++
   match sortable_attributes s with
   | Some v => [("sortableAttributes", SStrs v)] | None => [] end ++
   match distinct_attribute s with
   | Some v => [("distinctAttribute", SStr v)] | None => [] end ++
   match searchable_attributes s with
   | Some v => [("searchableAttributes", SStrs v)] | None => [] end ++
   match displayed_attributes s with
   | Some v => [("displayedAttributes", SStrs v)] | None => [] end ++
   match pagination s with
   | Some p => [("pagination", SObj [("maxTotalHits", max_total_hits p)])] | None => [] end ++
   match faceting s with
   | Some f => [("faceting", SObj [("maxValuesPerFacet", max_values_per_facet f)])]
   | None => [] end)%list.

(** One call of a [Settings] builder, with its argument. *)
Inductive SettingsCall : Type :=
| CallSynonyms (m : gmap string (list string))
| CallStopWords (ws : list string)
| CallPagination (p : PaginationSetting)
| CallRankingRules (rs : list string)
| CallFilterableAttributes (fs : list string)
| CallSortableAttributes (ss : list string)
| CallDistinctAttribute (d : string)
| CallSearchableAttributes (ss : list string)
| CallDisplayedAttributes (ds : list string)
| CallFaceting (f : FacetingSettings).

Definition apply_call (s : Settings) (c : SettingsCall) : Settings :=
  match c with
  | CallSynonyms m => with_synonyms s m
  | CallStopWords ws => with_stop_words s ws
  | CallPagination p => with_pagination s p
  | CallRankingRules rs => with_ranking_rules s rs
  | CallFilterableAttributes fs => with_filterable_attributes s fs
  | CallSortableAttributes ss => with_sortable_attributes s ss
  | CallDistinctAttribute d => with_distinct_attribute s d
  | CallSearchableAttributes ss => with_searchable_attributes s ss
  | CallDisplayedAttributes ds => with_displayed_attributes s ds
  | CallFaceting f => with_faceting s f
  end.

(** The serialized name of the field a builder call sets. *)
Definition call_key (c : SettingsCall) : string :=
  match c with
  | CallSynonyms _ => "synonyms"
  | CallStopWords _ => "stopWords"
  | CallPagination _ => "pagination"
  | CallRankingRules _ => "rankingRules"
  | CallFilterableAttributes _ => "filterableAttributes"
  | CallSortableAttributes _ => "sortableAttributes"
  | CallDistinctAttribute _ => "distinctAttribute"
  | CallSearchableAttributes _ => "searchableAttributes"
  | CallDisplayedAttributes _ => "displayedAttributes"
  | CallFaceting _ => "faceting"
  end.

(** The serialized field names of [Settings], in declaration order. *)
Definition settings_keys : list string :=
  ["synonyms"; "stopWords"; "rankingRules"; "filterableAttributes";
   "sortableAttributes"; "distinctAttribute"; "searchableAttributes";
   "displayedAttributes"; "pagination"; "faceting"].

(** [Option::is_some]. *)
Definition is_some {A : Type} (o : option A) : bool :=
  match o with Some _ => true | None => false end.

(** Whether the field serialized under [k] is set. *)
Definition key_set (s : Settings) (k : string) : bool :=
  if String.eqb k "synonyms" then is_some (synonyms s)
  else if String.eqb k "stopWords" then is_some (stop_words s)
  else if String.eqb k "rankingRules" then is_some (ranking_rules s)
  else if String.eqb k "filterableAttributes" then is_some (filterable_attributes s)
  else if String.eqb k "sortableAttributes" then is_some (sortable_attributes s)
  else if String.eqb k "distinctAttribute" then is_some (distinct_attribute s)
  else if String.eqb k "searchableAttributes" then is_some (searchable_attributes s)
  else if String.eqb k "displayedAttributes" then is_some (displayed_attributes s)
  else if String.eqb k "pagination" then is_some (pagination s)
  else if String.eqb k "faceting" then is_some (faceting s)
  else false.

End Settings.

(** ** src/src/documents.rs: [DocumentsQuery] *)
Module Documents.

Section DocumentsQuery.
(** The [Index] a query refers back to (indexes.rs, not under src/; only
    carried, never inspected). *)
Context {Index : Type}.

(** [DocumentsQuery<'a>]. *)
Record DocumentsQuery : Type := {
  index : Index;
  offset : option N;
  limit : option N;
  fields : option (list string)
}.

(** [DocumentsQuery::new]. *)
Definition new (index : Index) : DocumentsQuery :=
  {| index := index; offset := None; limit := None; fields := None |}.

(** [with_offset], [with_limit], [with_fields]. *)
Definition with_offset (q : DocumentsQuery) (o : N) : DocumentsQuery :=
  {| index := index q; offset := Some o; limit := limit q; fields := fields q |}.
Definition with_limit (q : DocumentsQuery) (l : N) : DocumentsQuery :=
  {| index := index q; offset := offset q; limit := Some l; fields := fields q |}.
Definition with_fields (q : DocumentsQuery) (fs : list string) : DocumentsQuery :=
  {| index := index q; offset := offset q; limit := limit q; fields := Some fs |}.
End DocumentsQuery.

(** The values serde hands to a serializer: [usize] and [Vec<&str>]. *)
Inductive SerValue : Type :=
| VUsize (n : N)
| VStrSeq (vs : list string).

(** The struct fields emitted by [#[derive(Serialize)]] on
    [DocumentsQuery], in declaration order: [index] is
    [skip_serializing], the three options are
    [skip_serializing_if = "Option::is_none"]. *)
Definition serialize {Index : Type} (q : @DocumentsQuery Index)
    : list (string * SerValue) :=
  match offset q with Some o => [("offset", VUsize o)] | None => [] end ++
  match limit q with Some l => [("limit", VUsize l)] | None => [] end ++
  match fields q with Some f => [("fields", VStrSeq f)] | None => [] end.

(** One call of a [DocumentsQuery] builder, with its argument. *)
Inductive QueryCall : Type :=
| CallOffset (o : N)
| CallLimit (l : N)
| CallFields (fs : list string).

Definition apply_query_call {Index : Type} (q : @DocumentsQuery Index) (c : QueryCall)
    : @DocumentsQuery Index :=
  match c with
  | CallOffset o => with_offset q o
  | CallLimit l => with_limit q l
  | CallFields fs => with_fields q fs
  end.

(** The serialized name of the field a builder call sets. *)
Definition query_call_key (c : QueryCall) : string :=
  match c with
  | CallOffset _ => "offset"
  | CallLimit _ => "limit"
  | CallFields _ => "fields"
  end.

End Documents.

(** ** src/meilisearch-index-setting-macro/src/lib.rs *)
Module IndexSettingMacro.

(** [proc_macro2::Spacing]. *)
Inductive Spacing : Type := Alone | Joint.

(** [proc_macro2::TokenTree]. *)
#[warnings="-register-all"]
Inductive TokenTree : Type :=
| Group (stream : list TokenTree)
| Ident (ident : string)
| Punct (c : ascii) (spacing : Spacing)
| Literal (lit : string).

(** The shape of a successfully parsed [syn::Meta], with its path. *)
Inductive Meta : Type :=
| MetaPath (path : string)
| MetaList (path : string)
| MetaNameValue (path : string).

(** A [syn::Attribute]: the result of [attr.parse_meta()] (an error message
    on failure) and [attr.tokens], the tokens after the path. *)
Record Attribute : Type := {
  parse_meta : result Meta string;
  tokens : list TokenTree
}.

(** A [syn::Field]: its identifier ([None] for a tuple field) and its
    attributes. *)
Record Field : Type := {
  field_ident : option string;
  attrs : list Attribute
}.

(** [to_compile_error()] of a [syn::Error], kept as its message. *)
Definition CompileError := string.

(** [validate_punct]. *)
Definition validate_punct (c : ascii) (sp : Spacing) : result unit CompileError :=
  match sp with
  | Alone => if Ascii.eqb c "," then Ok tt else Err "`,` expected"
  | Joint => Err "`,` expected"
  end.

Definition contains (s : gset string) (x : string) : bool := bool_decide (x ∈ s).

(** The innermost loop of [extract_all_attr_values], over
    [group.stream()], threading [attribute_set], [local_attribute_set] and
    [attribute_names]. *)
Fixpoint extract_group (valid : gset string) (ts : list TokenTree)
    (attribute_set local_attribute_set : gset string) (attribute_names : list string)
    : result (gset string * gset string * list string) CompileError :=
  match ts with
  | [] => Ok (attribute_set, local_attribute_set, attribute_names)
  | token :: ts =>
      match token with
      | Punct c sp =>
          match validate_punct c sp with
          | Err e => Err e
          | Ok _ => extract_group valid ts attribute_set local_attribute_set attribute_names
          end
      | Ident ident =>
          if String.eqb ident "primary_key" && contains attribute_set "primary_key" then
            Err "`primary_key` already exists"
          else if String.eqb ident "distinct" && contains attribute_set "distinct" then
            Err "`distinct` already exists"
          else if contains local_attribute_set ident then
            Err ("`" ++ ident ++ "` already exists for this field")
          else if negb (contains valid ident) then
            Err ("Property `" ++ ident ++ "` does not exist for type `index_config`")
          else
            extract_group valid ts ({[ ident ]} ∪ attribute_set)
              ({[ ident ]} ∪ local_attribute_set) (attribute_names ++ [ident])
      | _ => Err "Invalid parsing"
      end
  end.

(** The loop over [attr.tokens] of an [index_config] list. *)
Fixpoint extract_tokens (valid : gset string) (ts : list TokenTree)
    (attribute_set local_attribute_set : gset string) (attribute_names : list string)
    : result (gset string * gset string * list string) CompileError :=
  match ts with
  | [] => Ok (attribute_set, local_attribute_set, attribute_names)
  | Group g :: ts =>
      match extract_group valid g attribute_set local_attribute_set attribute_names with
      | Err e => Err e
      | Ok (s, l, n) => extract_tokens valid ts s l n
      end
  | _ :: ts => extract_tokens valid ts attribute_set local_attribute_set attribute_names
  end.

(** The punctuation check of the [parse_meta] error branch. *)
Fixpoint check_group_puncts (ts : list TokenTree) : result unit CompileError :=
  match ts with
  | [] => Ok tt
  | Punct c sp :: ts =>
      match validate_punct c sp with Err e => Err e | Ok _ => check_group_puncts ts end
  | _ :: ts => check_group_puncts ts
  end.

Fixpoint check_puncts (ts : list TokenTree) : result unit CompileError :=
  match ts with
  | [] => Ok tt
  | Group g :: ts =>
      match check_group_puncts g with Err e => Err e | Ok _ => check_puncts ts end
  | _ :: ts => check_puncts ts
  end.

(** The loop over [attrs] of [extract_all_attr_values]. *)
Fixpoint extract_attrs (valid : gset string) (attrs : list Attribute)
    (attribute_set local_attribute_set : gset string) (attribute_names : list string)
    : result (gset string * list string) CompileError :=
  match attrs with
  | [] => Ok (attribute_set, attribute_names)
  | attr :: attrs =>
      match parse_meta attr with
      | Ok (MetaList path) =>
          if negb (String.eqb path "index_config") then
            extract_attrs valid attrs attribute_set local_attribute_set attribute_names
          else
            match extract_tokens valid (tokens attr) attribute_set local_attribute_set
                    attribute_names with
            | Err e => Err e
            | Ok (s, l, n) => extract_attrs valid attrs s l n
            end
      | Err e =>
          match check_puncts (tokens attr) with
          | Err e' => Err e'
          | Ok _ => Err e
          end
      | Ok _ => extract_attrs valid attrs attribute_set local_attribute_set attribute_names
      end
  end.

(** [extract_all_attr_values]: the updated [attribute_set] is returned with
    the names on success (on failure the caller gives up). *)
Definition extract_all_attr_values (attrs : list Attribute) (attribute_set : gset string)
    (valid_attribute_names : gset string) : result (gset string * list string) CompileError :=
  extract_attrs valid_attribute_names attrs attribute_set ∅ [].

(** [valid_attribute_names]. *)
Definition valid_attribute_names : gset string :=
  list_to_set ["displayed"; "searchable"; "filterable"; "sortable"; "primary_key"; "distinct"].

(** The local variables of [get_index_config_implementation]. *)
Record MacroState : Type := {
  attribute_set : gset string;
  primary_key_attribute : string;
  distinct_key_attribute : string;
  displayed_attributes : list string;
  searchable_attributes : list string;
  filterable_attributes : list string;
  sortable_attributes : list string
}.

(** How the expansion fails: a compile error, or the panic of
    [field.ident.clone().unwrap()] on a tuple field. *)
Inductive MacroError : Type :=
| MacroCompileError (e : CompileError)
| Panic.

Definition init_state : MacroState := {|
  attribute_set := ∅; primary_key_attribute := ""; distinct_key_attribute := "";
  displayed_attributes := []; searchable_attributes := [];
  filterable_attributes := []; sortable_attributes := [] |}.

(** The body of [for attribute in attribute_list] for one field. *)
Fixpoint push_attributes (ident : option string) (attribute_list : list string)
    (st : MacroState) : result MacroState MacroError :=
  match attribute_list with
  | [] => Ok st
  | attribute :: rest =>
      let name k := match ident with Some n => k n | None => Err Panic end in
      let next r := match r with Ok st' => push_attributes ident rest st' | Err e => Err e end in
      if String.eqb attribute "displayed" then
        next (name (fun n => Ok {| attribute_set := attribute_set st;
          primary_key_attribute := primary_key_attribute st;
          distinct_key_attribute := distinct_key_attribute st;
          displayed_attributes := displayed_attributes st ++ [n];
          searchable_attributes := searchable_attributes st;
          filterable_attributes := filterable_attributes st;
          sortable_attributes := sortable_attributes st |}))
      else if String.eqb attribute "searchable" then
        next (name (fun n => Ok {| attribute_set := attribute_set st;
          primary_key_attribute := primary_key_attribute st;
          distinct_key_attribute := distinct_key_attribute st;
          displayed_attributes := displayed_attributes st;
          searchable_attributes := searchable_attributes st ++ [n];
          filterable_attributes := filterable_attributes st;
          sortable_attributes := sortable_attributes st |}))
      else if String.eqb attribute "filterable" then
        next (name (fun n => Ok {| attribute_set := attribute_set st;
          primary_key_attribute := primary_key_attribute st;
          distinct_key_attribute := distinct_key_attribute st;
          displayed_attributes := displayed_attributes st;
          searchable_attributes := searchable_attributes st;
          filterable_attributes := filterable_attributes st ++ [n];
          sortable_attributes := sortable_attributes st |}))
      else if String.eqb attribute "sortable" then
        next (name (fun n => Ok {| attribute_set := attribute_set st;
          primary_key_attribute := primary_key_attribute st;
          distinct_key_attribute := distinct_key_attribute st;
          displayed_attributes := displayed_attributes st;
          searchable_attributes := searchable_attributes st;
          filterable_attributes := filterable_attributes st;
          sortable_attributes := sortable_attributes st ++ [n] |}))
      else if String.eqb attribute "primary_key" then
        next (name (fun n => Ok {| attribute_set := attribute_set st;
          primary_key_attribute := n;
          distinct_key_attribute := distinct_key_attribute st;
          displayed_attributes := displayed_attributes st;
          searchable_attributes := searchable_attributes st;
          filterable_attributes := filterable_attributes st;
          sortable_attributes := sortable_attributes st |}))
      else if String.eqb attribute "distinct" then
        next (name (fun n => Ok {| attribute_set := attribute_set st;
          primary_key_attribute := primary_key_attribute st;
          distinct_key_attribute := n;
          displayed_attributes := displayed_attributes st;
          searchable_attributes := searchable_attributes st;
          filterable_attributes := filterable_attributes st;
          sortable_attributes := sortable_attributes st |}))
      else push_attributes ident rest st
  end.

(** The [for field in fields] loop of [get_index_config_implementation]. *)
Fixpoint process_fields (fields : list Field) (st : MacroState)
    : result MacroState MacroError :=
  match fields with
  | [] => Ok st
  | field :: fields =>
      match extract_all_attr_values (attrs field) (attribute_set st)
              valid_attribute_names with
      | Err e => Err (MacroCompileError e)
      | Ok (set', attribute_list) =>
          let st := {| attribute_set := set';
            primary_key_attribute := primary_key_attribute st;
            distinct_key_attribute := distinct_key_attribute st;
            displayed_attributes := displayed_attributes st;
            searchable_attributes := searchable_attributes st;
            filterable_attributes := filterable_attributes st;
            sortable_attributes := sortable_attributes st |} in
          match push_attributes (field_ident field) attribute_list st with
          | Err e => Err e
          | Ok st => process_fields fields st
          end
      end
  end.

(** The generated [impl IndexConfig]: the value [generate_settings()]
    returns and the primary key [generate_index] passes to
    [create_index] (the index name, a case conversion done by
    [convert_case], is not modelled). *)
Record IndexConfigImpl : Type := {
  generate_settings : Settings.Settings;
  primary_key_token : option string
}.

(** [get_settings_token_for_string] applied to [Settings]: the builder
    call is emitted only for a non-empty name. *)
Definition settings_token_for_string (f : Settings.Settings -> string -> Settings.Settings)
    (field_name : string) (s : Settings.Settings) : Settings.Settings :=
  if String.eqb field_name "" then s else f s field_name.

(** [get_index_config_implementation]. *)
Definition get_index_config_implementation (fields : list Field)
    : result IndexConfigImpl MacroError :=
  match process_fields fields init_state with
  | Err e => Err e
  | Ok st =>
      Ok {| generate_settings :=
              settings_token_for_string Settings.with_distinct_attribute
                (distinct_key_attribute st)
                (Settings.with_searchable_attributes
                   (Settings.with_filterable_attributes
                      (Settings.with_sortable_attributes
                         (Settings.with_displayed_attributes Settings.new
                            (displayed_attributes st))
                         (sortable_attributes st))
                      (filterable_attributes st))
                   (searchable_attributes st));
            primary_key_token :=
              if String.eqb (primary_key_attribute st) "" then None
              else Some (primary_key_attribute st) |}
  end.

(** The annotations a field carries: the identifiers listed, in order, in
    its [#[index_config(...)]] attributes. *)
Definition group_idents (ts : list TokenTree) : list string :=
  flat_map (fun t => match t with Ident i => [i] | _ => [] end) ts.

Definition tokens_idents (ts : list TokenTree) : list string :=
  flat_map (fun t => match t with Group g => group_idents g | _ => [] end) ts.

Definition attr_annotations (a : Attribute) : list string :=
  match parse_meta a with
  | Ok (MetaList path) => if String.eqb path "index_config" then tokens_idents (tokens a) else []
  | _ => []
  end.

Definition annotations (attrs : list Attribute) : list string :=
  flat_map attr_annotations attrs.

Definition field_annotations (f : Field) : list string := annotations (attrs f).

Definition carries (a : string) (f : Field) : bool :=
  existsb (String.eqb a) (field_annotations f).

(** The names of the fields carrying annotation [a], in declaration order. *)
Definition names_with (a : string) (fields : list Field) : list string :=
  flat_map (fun f => if carries a f then
                       match field_ident f with Some n => [n] | None => [] end
                     else []) fields.

(** An [index_config] list that holds only identifiers separated by lone
    commas, and an attribute that [parse_meta] accepts and whose
    [index_config] lists are of that form. *)
Definition group_well_formed (ts : list TokenTree) : Prop :=
  Forall (fun t => match t with
                   | Ident _ => True
                   | Punct c sp => c = ","%char /\ sp = Alone
                   | _ => False
                   end) ts.

Definition attr_well_formed (a : Attribute) : Prop :=
  match parse_meta a with
  | Err _ => False
  | Ok (MetaList path) =>
      path = "index_config" ->
      Forall (fun t => match t with Group g => group_well_formed g | _ => True end) (tokens a)
  | Ok _ => True
  end.

(** The checks [extract_all_attr_values] performs on a sequence [ids] of
    annotation names, given the struct-wide set [s] and the field's set
    [l]: no repetition, none already in [l], all valid, and
    [primary_key]/[distinct] not already in [s]. *)
Definition names_ok (valid s l : gset string) (ids : list string) : Prop :=
  NoDup ids /\ (forall x, x ∈ ids -> x ∉ l) /\ (forall x, x ∈ ids -> x ∈ valid) /\
  ("primary_key" ∈ s -> "primary_key" ∉ ids) /\ ("distinct" ∈ s -> "distinct" ∉ ids).

(** [#[index_config(a, b, ...)]]. *)
Definition index_config_attr (names : list string) : Attribute :=
  {| parse_meta := Ok (MetaList "index_config");
     tokens := [Group (tail (flat_map (fun n => [Punct "," Alone; Ident n]) names))] |}.

(** The [MovieClips] struct of the tests of documents.rs. *)
Definition movie_clips_fields : list Field := [
  {| field_ident := Some "movie_id"; attrs := [index_config_attr ["primary_key"]] |};
  {| field_ident := Some "owner"; attrs := [index_config_attr ["distinct"]] |};
  {| field_ident := Some "title"; attrs := [index_config_attr ["displayed"; "searchable"]] |};
  {| field_ident := Some "description"; attrs := [index_config_attr ["displayed"]] |};
  {| field_ident := Some "release_date";
     attrs := [index_config_attr ["filterable"; "sortable"; "displayed"]] |};
  {| field_ident := Some "genres"; attrs := [index_config_attr ["filterable"; "displayed"]] |}].

(** [#[index_config(1)]]: a literal in the list. *)
Definition literal_attr : Attribute :=
  {| parse_meta := Ok (MetaList "index_config"); tokens := [Group [Literal "1"]] |}.

(** The list of [MacroState] an attribute-list annotation adds to. *)
Definition attr_list (a : string) (st : MacroState) : list string :=
  if String.eqb a "displayed" then displayed_attributes st
  else if String.eqb a "searchable" then searchable_attributes st
  else if String.eqb a "filterable" then filterable_attributes st
  else if String.eqb a "sortable" then sortable_attributes st
  else [].

(** The names of the named fields, in declaration order; a Rust struct
    declares each name once. *)
Definition field_names (fields : list Field) : list string :=
  flat_map (fun f => match field_ident f with Some n => [n] | None => [] end) fields.

End IndexSettingMacro.

(** ** The task poller ([Task::wait_for_completion], tasks.rs, not under
    src/) *)
Module Tasks.
Import Request.

(** Modelled from the spec: the job status of section 3. *)
Inductive TaskStatus : Type := Enqueued | Processing | Succeeded | Failed | Canceled.

(** Modelled from the spec: a job handle, its id and its status. *)
Record Task : Type := {
  task_uid : N;
  task_status : TaskStatus
}.

(** Modelled from the spec: Succeeded, Failed and Canceled are terminal. *)
Definition is_terminal (s : TaskStatus) : bool :=
  match s with
  | Succeeded | Failed | Canceled => true
  | Enqueued | Processing => false
  end.

(** One [GET] on the task resource through the dispatcher: its outcome
    and the wall-clock time (ms) the round trip took. *)
Record Poll : Type := {
  poll_result : result Task Error;
  poll_latency : N
}.

(** Modelled from the spec: the default interval and timeout owned by the
    poller (ms). *)
Definition DEFAULT_INTERVAL : N := 50.
Definition DEFAULT_TIMEOUT : N := 5000.

(** Modelled from the spec: the loop of [waitForCompletion] (section 4.3).
    [source k] is the [k]-th fetch of the task, [elapsed] the time since
    the call started; the loop fetches, returns a terminal task at once,
    otherwise returns [Timeout] when the elapsed time exceeds [timeout],
    otherwise sleeps [interval] and repeats. The result carries the
    number of fetches made; [None] means the loop is still running after
    [fuel] rounds. *)
Fixpoint poll_loop (fuel : nat) (source : nat -> Poll) (interval timeout : N)
    (k : nat) (elapsed : N) : option (result Task Error * nat) :=
  match fuel with
  | O => None
  | S fuel =>
      let p := source k in
      let elapsed := (elapsed + poll_latency p)%N in
      match poll_result p with
      | Err e => Some (Err e, S k)
      | Ok task =>
          if is_terminal (task_status task) then Some (Ok task, S k)
          else if N.ltb timeout elapsed then Some (Err Timeout, S k)
          else poll_loop fuel source interval timeout (S k) (elapsed + interval)%N
      end
  end.

(** Modelled from the spec: [waitForCompletion(handle, interval?, timeout?)];
    [source uid] answers the successive fetches of task [uid]. *)
Definition wait_for_completion (fuel : nat) (source : N -> nat -> Poll) (handle : Task)
    (interval timeout : option N) : option (result Task Error * nat) :=
  poll_loop fuel (source (task_uid handle)) (default DEFAULT_INTERVAL interval)
    (default DEFAULT_TIMEOUT timeout) 0 0.

(** Time elapsed since the call's start when the [k]-th fetch begins. *)
Fixpoint elapsed_before (source : nat -> Poll) (interval : N) (k : nat) : N :=
  match k with
  | O => 0
  | S k => elapsed_before source interval k + poll_latency (source k) + interval
  end%N.

(** Time elapsed since the call's start when the [k]-th fetch returns. *)
Definition elapsed_after (source : nat -> Poll) (interval : N) (k : nat) : N :=
  (elapsed_before source interval k + poll_latency (source k))%N.

(** A job that is enqueued on the first two fetches and succeeded on the
    third; every fetch is instantaneous. *)
Definition late_success_source (uid : N) (k : nat) : Poll :=
  {| poll_result := Ok {| task_uid := uid;
                          task_status := match k with 0 | 1 => Enqueued | _ => Succeeded end |};
     poll_latency := 0 |}.

Definition late_success_handle : Task := {| task_uid := 7; task_status := Enqueued |}.

End Tasks.

(** ** src/src/settings.rs: the settings methods of [Index<Http>] *)
Module IndexSettings.
Import Request.

(** The values of [Index<Http>] the methods read: [self.client.host],
    [self.client.get_api_key()] and [self.uid] (indexes.rs and client.rs
    are not under src/; nothing else of them is used). *)
Record IndexHandle : Type := {
  host : string;
  api_key : option string;
  uid : string
}.

(** The arguments of one [HttpClient::request] call: the URL, the API
    key, the method with its query and body, the expected status code.
    Each method of this module makes exactly this call and returns its
    result unchanged. *)
Record HttpCall (B : Type) : Type := {
  call_url : string;
  call_apikey : option string;
  call_method : Method unit B;
  call_expected : N
}.
Arguments call_url {B} _.
Arguments call_apikey {B} _.
Arguments call_method {B} _.
Arguments call_expected {B} _.
Arguments Build_HttpCall {B} _ _ _ _.

(** [Index::get_settings]. *)
Definition get_settings (self : IndexHandle) : HttpCall unit :=
  Build_HttpCall (host self ++ "/indexes/" ++ uid self ++ "/settings") (api_key self) (Get tt) 200.

(** [Index::get_synonyms]. *)
Definition get_synonyms (self : IndexHandle) : HttpCall unit :=
  Build_HttpCall (host self ++ "/indexes/" ++ uid self ++ "/settings/synonyms") (api_key self) (Get tt) 200.

(** [Index::get_pagination]. *)
Definition get_pagination (self : IndexHandle) : HttpCall unit :=
  Build_HttpCall (host self ++ "/indexes/" ++ uid self ++ "/settings/pagination") (api_key self) (Get tt) 200.

(** [Index::get_stop_words]. *)
Definition get_stop_words (self : IndexHandle) : HttpCall unit :=
  Build_HttpCall (host self ++ "/indexes/" ++ uid self ++ "/settings/stop-words") (api_key self) (Get tt) 200.

(** [Index::get_ranking_rules]. *)
Definition get_ranking_rules (self : IndexHandle) : HttpCall unit :=
  Build_HttpCall (host self ++ "/indexes/" ++ uid self ++ "/settings/ranking-rules") (api_key self) (Get tt) 200.

(** [Index::get_filterable_attributes]. *)
Definition get_filterable_attributes (self : IndexHandle) : HttpCall unit :=
  Build_HttpCall (host self ++ "/indexes/" ++ uid self ++ "/settings/filterable-attributes") (api_key self) (Get tt) 200.

(** [Index::get_sortable_attributes]. *)
Definition get_sortable_attributes (self : IndexHandle) : HttpCall unit :=
  Build_HttpCall (host self ++ "/indexes/" ++ uid self ++ "/settings/sortable-attributes") (api_key self) (Get tt) 200.

(** [Index::get_distinct_attribute]. *)
Definition get_distinct_attribute (self : IndexHandle) : HttpCall unit :=
  Build_HttpCall (host self ++ "/indexes/" ++ uid self ++ "/settings/distinct-attribute") (api_key self) (Get tt) 200.

(** [Index::get_searchable_attributes]. *)
Definition get_searchable_attributes (self : IndexHandle) : HttpCall unit :=
  Build_HttpCall (host self ++ "/indexes/" ++ uid self ++ "/settings/searchable-attributes") (api_key self) (Get tt) 200.

(** [Index::get_displayed_attributes]. *)
Definition get_displayed_attributes (self : IndexHandle) : HttpCall unit :=
  Build_HttpCall (host self ++ "/indexes/" ++ uid self ++ "/settings/displayed-attributes") (api_key self) (Get tt) 200.

(** [Index::get_faceting]. *)
Definition get_faceting (self : IndexHandle) : HttpCall unit :=
  Build_HttpCall (host self ++ "/indexes/" ++ uid self ++ "/settings/faceting") (api_key self) (Get tt) 200.

(** [Index::set_settings]. *)
Definition set_settings (self : IndexHandle) (settings : Settings.Settings) : HttpCall Settings.Settings :=
  Build_HttpCall (host self ++ "/indexes/" ++ uid self ++ "/settings") (api_key self) (Patch tt settings) 202.

(** [Index::set_synonyms]. *)
Definition set_synonyms (self : IndexHandle) (synonyms : gmap string (list string)) : HttpCall (gmap string (list string)) :=
  Build_HttpCall (host self ++ "/indexes/" ++ uid self ++ "/settings/synonyms") (api_key self) (Put tt synonyms) 202.

(** [Index::set_pagination]. *)
Definition set_pagination (self : IndexHandle) (pagination : Settings.PaginationSetting) : HttpCall Settings.PaginationSetting :=
  Build_HttpCall (host self ++ "/indexes/" ++ uid self ++ "/settings/pagination") (api_key self) (Patch tt pagination) 202.

(** [Index::set_stop_words]; the body is [stop_words.into_iter().map(|v| v.as_ref().to_string()).collect()]. *)
Definition set_stop_words (self : IndexHandle) (stop_words : list string) : HttpCall (list string) :=
  Build_HttpCall (host self ++ "/indexes/" ++ uid self ++ "/settings/stop-words") (api_key self) (Put tt (Settings.collect_strings stop_words)) 202.

(** [Index::set_ranking_rules]; the body is [ranking_rules.into_iter().map(|v| v.as_ref().to_string()).collect()]. *)
Definition set_ranking_rules (self : IndexHandle) (ranking_rules : list string) : HttpCall (list string) :=
  Build_HttpCall (host self ++ "/indexes/" ++ uid self ++ "/settings/ranking-rules") (api_key self) (Put tt (Settings.collect_strings ranking_rules)) 202.

(** [Index::set_filterable_attributes]; the body is [filterable_attributes.into_iter().map(|v| v.as_ref().to_string()).collect()]. *)
Definition set_filterable_attributes (self : IndexHandle) (filterable_attributes : list string) : HttpCall (list string) :=
  Build_HttpCall (host self ++ "/indexes/" ++ uid self ++ "/settings/filterable-attributes") (api_key self) (Put tt (Settings.collect_strings filterable_attributes)) 202.

(** [Index::set_sortable_attributes]; the body is [sortable_attributes.into_iter().map(|v| v.as_ref().to_string()).collect()]. *)
Definition set_sortable_attributes (self : IndexHandle) (sortable_attributes : list string) : HttpCall (list string) :=
  Build_HttpCall (host self ++ "/indexes/" ++ uid self ++ "/settings/sortable-attributes") (api_key self) (Put tt (Settings.collect_strings sortable_attributes)) 202.

(** [Index::set_distinct_attribute]; the body is [distinct_attribute.as_ref().to_string()]. *)
Definition set_distinct_attribute (self : IndexHandle) (distinct_attribute : string) : HttpCall string :=
  Build_HttpCall (host self ++ "/indexes/" ++ uid self ++ "/settings/distinct-attribute") (api_key self) (Put tt distinct_attribute) 202.

(** [Index::set_searchable_attributes]; the body is [searchable_attributes.into_iter().map(|v| v.as_ref().to_string()).collect()]. *)
Definition set_searchable_attributes (self : IndexHandle) (searchable_attributes : list string) : HttpCall (list string) :=
  Build_HttpCall (host self ++ "/indexes/" ++ uid self ++ "/settings/searchable-attributes") (api_key self) (Put tt (Settings.collect_strings searchable_attributes)) 202.

(** [Index::set_displayed_attributes]; the body is [displayed_attributes.into_iter().map(|v| v.as_ref().to_string()).collect()]. *)
Definition set_displayed_attributes (self : IndexHandle) (displayed_attributes : list string) : HttpCall (list string) :=
  Build_HttpCall (host self ++ "/indexes/" ++ uid self ++ "/settings/displayed-attributes") (api_key self) (Put tt (Settings.collect_strings displayed_attributes)) 202.

(** [Index::set_faceting]. *)
Definition set_faceting (self : IndexHandle) (faceting : Settings.FacetingSettings) : HttpCall Settings.FacetingSettings :=
  Build_HttpCall (host self ++ "/indexes/" ++ uid self ++ "/settings/faceting") (api_key self) (Patch tt faceting) 202.

(** [Index::reset_settings]. *)
Definition reset_settings (self : IndexHandle) : HttpCall unit :=
  Build_HttpCall (host self ++ "/indexes/" ++ uid self ++ "/settings") (api_key self) (Delete tt) 202.

(** [Index::reset_synonyms]. *)
Definition reset_synonyms (self : IndexHandle) : HttpCall unit :=
  Build_HttpCall (host self ++ "/indexes/" ++ uid self ++ "/settings/synonyms") (api_key self) (Delete tt) 202.

(** [Index::reset_pagination]. *)
Definition reset_pagination (self : IndexHandle) : HttpCall unit :=
  Build_HttpCall (host self ++ "/indexes/" ++ uid self ++ "/settings/pagination") (api_key self) (Delete tt) 202.

(** [Index::reset_stop_words]. *)
Definition reset_stop_words (self : IndexHandle) : HttpCall unit :=
  Build_HttpCall (host self ++ "/indexes/" ++ uid self ++ "/settings/stop-words") (api_key self) (Delete tt) 202.

(** [Index::reset_ranking_rules]. *)
Definition reset_ranking_rules (self : IndexHandle) : HttpCall unit :=
  Build_HttpCall (host self ++ "/indexes/" ++ uid self ++ "/settings/ranking-rules") (api_key self) (Delete tt) 202.

(** [Index::reset_filterable_attributes]. *)
Definition reset_filterable_attributes (self : IndexHandle) : HttpCall unit :=
  Build_HttpCall (host self ++ "/indexes/" ++ uid self ++ "/settings/filterable-attributes") (api_key self) (Delete tt) 202.

(** [Index::reset_sortable_attributes]. *)
Definition reset_sortable_attributes (self : IndexHandle) : HttpCall unit :=
  Build_HttpCall (host self ++ "/indexes/" ++ uid self ++ "/settings/sortable-attributes") (api_key self) (Delete tt) 202.

(** [Index::reset_distinct_attribute]. *)
Definition reset_distinct_attribute (self : IndexHandle) : HttpCall unit :=
  Build_HttpCall (host self ++ "/indexes/" ++ uid self ++ "/settings/distinct-attribute") (api_key self) (Delete tt) 202.

(** [Index::reset_searchable_attributes]. *)
Definition reset_searchable_attributes (self : IndexHandle) : HttpCall unit :=
  Build_HttpCall (host self ++ "/indexes/" ++ uid self ++ "/settings/searchable-attributes") (api_key self) (Delete tt) 202.

(** [Index::reset_displayed_attributes]. *)
Definition reset_displayed_attributes (self : IndexHandle) : HttpCall unit :=
  Build_HttpCall (host self ++ "/indexes/" ++ uid self ++ "/settings/displayed-attributes") (api_key self) (Delete tt) 202.

(** [Index::reset_faceting]. *)
Definition reset_faceting (self : IndexHandle) : HttpCall unit :=
  Build_HttpCall (host self ++ "/indexes/" ++ uid self ++ "/settings/faceting") (api_key self) (Delete tt) 202.

(** The URL suffix, after [{host}/indexes/{uid}/settings], of each of
    the eleven settings resources. *)
Definition settings_suffixes : list string :=
  [""; "/synonyms"; "/pagination"; "/stop-words"; "/ranking-rules";
   "/filterable-attributes"; "/sortable-attributes"; "/distinct-attribute";
   "/searchable-attributes"; "/displayed-attributes"; "/faceting"].

End IndexSettings.

(** * Properties *)

Import Request.

(** C1: the response parser's four outcomes. With [parsed] the body after
    the empty-body substitution: a matching status yields the
    deserialized output, or [ParseError] when deserialization fails; a
    different status yields the service error parsed from the body (its
    code included), otherwise [CommunicationError] with the status and
    URL when the status is at least 400, otherwise the [ParseError] of
    the failed service-error parse. *)
Theorem parse_response_classification {Output : Type}
    (from_str_output : string -> result Output SerdeJsonError)
    (from_str_error : string -> result MeilisearchError SerdeJsonError)
    (status expected : N) (body url : string) :
  let parsed := if String.eqb body "" then "null" else body in
  let r := parse_response from_str_output from_str_error status expected body url in
  (status = expected ->
     (forall o, from_str_output parsed = Ok o -> r = Ok o) /\
     (forall e, from_str_output parsed = Err e -> r = Err (ParseError e))) /\
  (status <> expected -> forall me, from_str_error parsed = Ok me ->
     r = Err (Meilisearch me) /\
     (exists me', r = Err (Meilisearch me') /\ error_code me' = error_code me)) /\
  (status <> expected -> forall e, from_str_error parsed = Err e -> (400 <= status)%N ->
     r = Err (MeilisearchCommunication
                {| status_code := status; message := None; url := url |})) /\
  (status <> expected -> forall e, from_str_error parsed = Err e -> (status < 400)%N ->
     r = Err (ParseError e)).
Proof.
  cbv zeta. unfold parse_response.
  destruct (N.eqb_spec status expected) as [Heq | Hne].
  - repeat split; intros; try contradiction;
      match goal with H : _ = _ |- _ => rewrite H; reflexivity end.
  - split; [intros; contradiction |].
    refine (conj _ (conj _ _)); intros _ x Hx; rewrite Hx.
    + split; [reflexivity | exists x; split; reflexivity].
    + intros Hle. apply N.leb_le in Hle. rewrite Hle. reflexivity.
    + intros Hlt. destruct (N.leb_spec 400 status); [lia | reflexivity].
Qed.

(** C6: an empty body is parsed exactly as the body ["null"], on the
    success path and on the error-classification path. *)
Theorem parse_response_empty_is_null {Output : Type}
    (from_str_output : string -> result Output SerdeJsonError)
    (from_str_error : string -> result MeilisearchError SerdeJsonError)
    (status expected : N) (url : string) :
  parse_response from_str_output from_str_error status expected "" url =
  parse_response from_str_output from_str_error status expected "null" url.
Proof. reflexivity. Qed.

(** C3: the request built from a [Method] uses the verb of its tag
    (Get GET, Post POST, Patch PATCH, Put PUT, Delete DELETE) and carries
    a body exactly for Post, Put and Patch, where it is the variant's
    body; Get and Delete carry none. *)
Theorem method_verb_and_body {Q B : Type} (yaup_to_string : Q -> result string Error)
    (VERSION : option string) (url : string) (apikey : option string)
    (m : Method Q B) (content_type : string) (pr : PreparedRequest)
    (Hbuild : build_request yaup_to_string VERSION url apikey m content_type = Ok pr) :
  pr_method pr =
    match m with
    | Get _ => GET | Post _ _ => POST | Patch _ _ => PATCH
    | Put _ _ => PUT | Delete _ => DELETE
    end /\
  pr_body pr =
    match m with
    | Get _ => None | Post _ b => Some b | Patch _ b => Some b
    | Put _ b => Some b | Delete _ => None
    end /\
  (pr_body pr <> None <-> exists q b, m = Post q b \/ m = Put q b \/ m = Patch q b).
Proof.
  unfold build_request, add_query_parameters in Hbuild.
  destruct (yaup_to_string (query m)); [| discriminate].
  injection Hbuild as <-.
  destruct apikey, m; cbn; (split; [reflexivity | split; [reflexivity |]]); split;
    first [ intros H; exfalso; apply H; reflexivity
          | intros _; do 2 eexists; eauto
          | intros (? & ? & [H | [H | H]]); discriminate
          | intros _; discriminate ].
Qed.

(** C5: a built request carries one [Authorization: Bearer <apiKey>]
    header when an API key is given and none otherwise, and always one
    [User-Agent] header, the fixed [qualified_version]. *)
Theorem request_headers {Q B : Type} (yaup_to_string : Q -> result string Error)
    (VERSION : option string) (url : string) (apikey : option string)
    (m : Method Q B) (content_type : string) (pr : PreparedRequest)
    (Hbuild : build_request yaup_to_string VERSION url apikey m content_type = Ok pr) :
  header_values "Authorization" (pr_headers pr) =
    match apikey with Some k => ["Bearer " ++ k] | None => [] end /\
  header_values "User-Agent" (pr_headers pr) = [qualified_version VERSION] /\
  qualified_version VERSION = "Meilisearch Rust (v" ++ default "unknown" VERSION ++ ")".
Proof.
  unfold build_request, add_query_parameters in Hbuild.
  destruct (yaup_to_string (query m)); [| discriminate].
  injection Hbuild as <-.
  destruct apikey, m; cbn; repeat split.
Qed.

(** C8: [Settings::new] leaves every field [None], and each builder sets
    its own field to [Some] of the given value and keeps every other
    field of its input. *)
Theorem settings_builders_frame :
  (Settings.new = {|
     Settings.synonyms := None; Settings.stop_words := None;
     Settings.ranking_rules := None; Settings.filterable_attributes := None;
     Settings.sortable_attributes := None; Settings.distinct_attribute := None;
     Settings.searchable_attributes := None; Settings.displayed_attributes := None;
     Settings.pagination := None; Settings.faceting := None |}) /\
  (forall (s : Settings.Settings) v, Settings.with_synonyms s v =
     {| Settings.synonyms := Some v; Settings.stop_words := Settings.stop_words s;
        Settings.ranking_rules := Settings.ranking_rules s;
        Settings.filterable_attributes := Settings.filterable_attributes s;
        Settings.sortable_attributes := Settings.sortable_attributes s;
        Settings.distinct_attribute := Settings.distinct_attribute s;
        Settings.searchable_attributes := Settings.searchable_attributes s;
        Settings.displayed_attributes := Settings.displayed_attributes s;
        Settings.pagination := Settings.pagination s; Settings.faceting := Settings.faceting s |}) /\
  (forall (s : Settings.Settings) v, Settings.with_stop_words s v =
     {| Settings.synonyms := Settings.synonyms s; Settings.stop_words := Some v;
        Settings.ranking_rules := Settings.ranking_rules s;
        Settings.filterable_attributes := Settings.filterable_attributes s;
        Settings.sortable_attributes := Settings.sortable_attributes s;
        Settings.distinct_attribute := Settings.distinct_attribute s;
        Settings.searchable_attributes := Settings.searchable_attributes s;
        Settings.displayed_attributes := Settings.displayed_attributes s;
        Settings.pagination := Settings.pagination s; Settings.faceting := Settings.faceting s |}) /\
  (forall (s : Settings.Settings) v, Settings.with_pagination s v =
     {| Settings.synonyms := Settings.synonyms s; Settings.stop_words := Settings.stop_words s;
        Settings.ranking_rules := Settings.ranking_rules s;
        Settings.filterable_attributes := Settings.filterable_attributes s;
        Settings.sortable_attributes := Settings.sortable_attributes s;
        Settings.distinct_attribute := Settings.distinct_attribute s;
        Settings.searchable_attributes := Settings.searchable_attributes s;
        Settings.displayed_attributes := Settings.displayed_attributes s;
        Settings.pagination := Some v; Settings.faceting := Settings.faceting s |}) /\
  (forall (s : Settings.Settings) v, Settings.with_ranking_rules s v =
     {| Settings.synonyms := Settings.synonyms s; Settings.stop_words := Settings.stop_words s;
        Settings.ranking_rules := Some v;
        Settings.filterable_attributes := Settings.filterable_attributes s;
        Settings.sortable_attributes := Settings.sortable_attributes s;
        Settings.distinct_attribute := Settings.distinct_attribute s;
        Settings.searchable_attributes := Settings.searchable_attributes s;
        Settings.displayed_attributes := Settings.displayed_attributes s;
        Settings.pagination := Settings.pagination s; Settings.faceting := Settings.faceting s |}) /\
  (forall (s : Settings.Settings) v, Settings.with_filterable_attributes s v =
     {| Settings.synonyms := Settings.synonyms s; Settings.stop_words := Settings.stop_words s;
        Settings.ranking_rules := Settings.ranking_rules s;
        Settings.filterable_attributes := Some v;
        Settings.sortable_attributes := Settings.sortable_attributes s;
        Settings.distinct_attribute := Settings.distinct_attribute s;
        Settings.searchable_attributes := Settings.searchable_attributes s;
        Settings.displayed_attributes := Settings.displayed_attributes s;
        Settings.pagination := Settings.pagination s; Settings.faceting := Settings.faceting s |}) /\
  (forall (s : Settings.Settings) v, Settings.with_sortable_attributes s v =
     {| Settings.synonyms := Settings.synonyms s; Settings.stop_words := Settings.stop_words s;
        Settings.ranking_rules := Settings.ranking_rules s;
        Settings.filterable_attributes := Settings.filterable_attributes s;
        Settings.sortable_attributes := Some v;
        Settings.distinct_attribute := Settings.distinct_attribute s;
        Settings.searchable_attributes := Settings.searchable_attributes s;
        Settings.displayed_attributes := Settings.displayed_attributes s;
        Settings.pagination := Settings.pagination s; Settings.faceting := Settings.faceting s |}) /\
  (forall (s : Settings.Settings) v, Settings.with_distinct_attribute s v =
     {| Settings.synonyms := Settings.synonyms s; Settings.stop_words := Settings.stop_words s;
        Settings.ranking_rules := Settings.ranking_rules s;
        Settings.filterable_attributes := Settings.filterable_attributes s;
        Settings.sortable_attributes := Settings.sortable_attributes s;
        Settings.distinct_attribute := Some v;
        Settings.searchable_attributes := Settings.searchable_attributes s;
        Settings.displayed_attributes := Settings.displayed_attributes s;
        Settings.pagination := Settings.pagination s; Settings.faceting := Settings.faceting s |}) /\
  (forall (s : Settings.Settings) v, Settings.with_searchable_attributes s v =
     {| Settings.synonyms := Settings.synonyms s; Settings.stop_words := Settings.stop_words s;
        Settings.ranking_rules := Settings.ranking_rules s;
        Settings.filterable_attributes := Settings.filterable_attributes s;
        Settings.sortable_attributes := Settings.sortable_attributes s;
        Settings.distinct_attribute := Settings.distinct_attribute s;
        Settings.searchable_attributes := Some v;
        Settings.displayed_attributes := Settings.displayed_attributes s;
        Settings.pagination := Settings.pagination s; Settings.faceting := Settings.faceting s |}) /\
  (forall (s : Settings.Settings) v, Settings.with_displayed_attributes s v =
     {| Settings.synonyms := Settings.synonyms s; Settings.stop_words := Settings.stop_words s;
        Settings.ranking_rules := Settings.ranking_rules s;
        Settings.filterable_attributes := Settings.filterable_attributes s;
        Settings.sortable_attributes := Settings.sortable_attributes s;
        Settings.distinct_attribute := Settings.distinct_attribute s;
        Settings.searchable_attributes := Settings.searchable_attributes s;
        Settings.displayed_attributes := Some v;
        Settings.pagination := Settings.pagination s; Settings.faceting := Settings.faceting s |}) /\
  (forall (s : Settings.Settings) v, Settings.with_faceting s v =
     {| Settings.synonyms := Settings.synonyms s; Settings.stop_words := Settings.stop_words s;
        Settings.ranking_rules := Settings.ranking_rules s;
        Settings.filterable_attributes := Settings.filterable_attributes s;
        Settings.sortable_attributes := Settings.sortable_attributes s;
        Settings.distinct_attribute := Settings.distinct_attribute s;
        Settings.searchable_attributes := Settings.searchable_attributes s;
        Settings.displayed_attributes := Settings.displayed_attributes s;
        Settings.pagination := Settings.pagination s; Settings.faceting := Some v |}).
Proof.
  assert (Hc : forall vs, Settings.collect_strings vs = vs)
    by (intros vs; apply map_id).
  split; [reflexivity |].
  repeat split; intros s v; unfold Settings.with_synonyms;
    cbv delta [Settings.with_stop_words Settings.with_pagination Settings.with_ranking_rules
               Settings.with_filterable_attributes Settings.with_sortable_attributes
               Settings.with_distinct_attribute Settings.with_searchable_attributes
               Settings.with_displayed_attributes Settings.with_faceting] beta;
    rewrite ?Hc; try reflexivity.
  f_equal. f_equal. apply map_eq. intros k. rewrite lookup_fmap.
  destruct (v !! k); simpl; rewrite ?Hc; reflexivity.
Qed.

(** C9: a fresh [DocumentsQuery] has [offset], [limit] and [fields] all
    [None]; serializing any [DocumentsQuery] never emits [index]; and, the
    query-string serializer writing an object with no emitted field as
    the empty string, the URL built from a fresh query is the base URL. *)
Theorem documents_query_fresh {Index : Type}
    (yaup_to_string : list (string * Documents.SerValue) -> result string Error)
    (Hempty : yaup_to_string [] = Ok "") (index : Index) (url : string) :
  Documents.offset (Documents.new index) = None /\
  Documents.limit (Documents.new index) = None /\
  Documents.fields (Documents.new index) = None /\
  (forall q : @Documents.DocumentsQuery Index, ~ In "index" (map fst (Documents.serialize q))) /\
  add_query_parameters (fun q => yaup_to_string (Documents.serialize q)) url
    (Documents.new index) = Ok url.
Proof.
  refine (conj eq_refl (conj eq_refl (conj eq_refl (conj _ _)))).
  - intros [i o l f]; unfold Documents.serialize; cbn.
    destruct o, l, f; cbn; intuition discriminate.
  - unfold add_query_parameters. cbn. rewrite Hempty. reflexivity.
Qed.

Import Tasks.

(** The poll loop, started at fetch [k] with the elapsed time of that
    fetch: it stops at some fetch [m >= k]; every fetch from [k] to
    [m - 1] returned a non-terminal task before the deadline, and fetch
    [m] decides the result. *)
Lemma poll_loop_outcome (fuel : nat) (source : nat -> Poll) (interval timeout : N)
    (k : nat) (elapsed : N) (r : result Task Error) (n : nat) :
  elapsed = elapsed_before source interval k ->
  poll_loop fuel source interval timeout k elapsed = Some (r, n) ->
  exists m, n = S m /\ (k <= m)%nat /\
    (forall j, (k <= j < m)%nat -> exists t, poll_result (source j) = Ok t /\
        is_terminal (task_status t) = false /\ (elapsed_after source interval j <= timeout)%N) /\
    match poll_result (source m) with
    | Err e => r = Err e
    | Ok t =>
        if is_terminal (task_status t) then r = Ok t
        else r = Err Timeout /\ (timeout < elapsed_after source interval m)%N
    end.
Proof.
  revert k elapsed.
  induction fuel as [| fuel IH]; intros k elapsed He Hrun; [discriminate |].
  cbn in Hrun. unfold elapsed_after.
  destruct (poll_result (source k)) as [t | e] eqn:Hp.
  - destruct (is_terminal (task_status t)) eqn:Ht.
    + injection Hrun as <- <-. exists k. rewrite Hp, Ht.
      repeat split; try lia.
    + destruct (N.ltb_spec timeout (elapsed + poll_latency (source k))) as [Hlt | Hge].
      * injection Hrun as <- <-. exists k. rewrite Hp, Ht.
        repeat split; lia.
      * apply IH in Hrun as (m & Hn & Hkm & Hbefore & Hlast);
          [| subst elapsed; reflexivity].
        exists m. repeat split; [exact Hn | lia | | exact Hlast].
        intros j Hj. destruct (Nat.eq_dec j k) as [-> | Hjk].
        -- exists t. unfold elapsed_after. subst elapsed. auto.
        -- apply Hbefore. lia.
  - injection Hrun as <- <-. exists k. rewrite Hp. repeat split; lia.
Qed.

(** C2 (amended): when [waitForCompletion] returns after [S m] fetches, the
    first [m] fetches all saw a non-terminal task before the deadline and
    fetch [m] decides: a terminal task (Succeeded, Failed or Canceled) is
    returned as an ordinary value and polling stops; a non-terminal task
    yields [Timeout] exactly when the elapsed time since the call's start
    exceeds the timeout; a failed fetch returns its error. A terminal
    task seen by the first fetch made after the deadline is still
    returned. *)
Theorem wait_for_completion_outcome (fuel : nat) (source : N -> nat -> Poll)
    (handle : Task) (interval timeout : option N) (r : result Task Error) (n : nat)
    (Hrun : wait_for_completion fuel source handle interval timeout = Some (r, n)) :
  let polls := source (task_uid handle) in
  let iv := default DEFAULT_INTERVAL interval in
  let to := default DEFAULT_TIMEOUT timeout in
  exists m, n = S m /\
    (forall j, (j < m)%nat -> exists t, poll_result (polls j) = Ok t /\
        is_terminal (task_status t) = false /\ (elapsed_after polls iv j <= to)%N) /\
    match poll_result (polls m) with
    | Err e => r = Err e
    | Ok t =>
        if is_terminal (task_status t) then r = Ok t
        else r = Err Timeout /\ (to < elapsed_after polls iv m)%N
    end.
Proof.
  cbv zeta. unfold wait_for_completion in Hrun.
  apply poll_loop_outcome in Hrun as (m & Hn & _ & Hbefore & Hlast); [| reflexivity].
  exists m. split; [exact Hn | split; [| exact Hlast]].
  intros j Hj. apply Hbefore. lia.
Qed.

(** C2 (counterexample): with interval 10 and timeout 15 the fetches
    happen at 0, 10 and 20 ms; the two fetches before the deadline see
    [Enqueued], none sees a terminal status before the timeout elapses,
    yet the call returns the succeeded task seen at 20 ms rather than a
    timeout error. *)
Lemma wait_for_completion_late_success :
  wait_for_completion 10 late_success_source late_success_handle (Some 10%N) (Some 15%N) =
    Some (Ok {| task_uid := 7; task_status := Succeeded |}, 3%nat) /\
  (forall j, (j < 2)%nat ->
     is_terminal (task_status {| task_uid := 7;
       task_status := match j with 0 | 1 => Enqueued | _ => Succeeded end |}) = false /\
     (elapsed_after (late_success_source 7) 10 j <= 15)%N) /\
  (15 < elapsed_after (late_success_source 7) 10 2)%N.
Proof.
  split; [reflexivity |]. split; [| vm_compute; reflexivity].
  intros j Hj. destruct j as [| [| j]]; [| | lia]; split; vm_compute; try reflexivity; discriminate.
Qed.

(** C2 witness: the amended theorem applied to that run. *)
Lemma wait_for_completion_outcome_witness :
  wait_for_completion 10 late_success_source late_success_handle (Some 10%N) (Some 15%N) =
    Some (Ok {| task_uid := 7; task_status := Succeeded |}, 3%nat) /\
  exists m, 3%nat = S m /\
    (forall j, (j < m)%nat -> exists t, poll_result (late_success_source 7 j) = Ok t /\
        is_terminal (task_status t) = false /\ (elapsed_after (late_success_source 7) 10 j <= 15)%N) /\
    match poll_result (late_success_source 7 m) with
    | Err e => @Ok Task Error {| task_uid := 7; task_status := Succeeded |} = Err e
    | Ok t =>
        if is_terminal (task_status t) then @Ok Task Error {| task_uid := 7; task_status := Succeeded |} = Ok t
        else @Ok Task Error {| task_uid := 7; task_status := Succeeded |} = Err Timeout /\
             (15 < elapsed_after (late_success_source 7) 10 m)%N
    end.
Proof.
  split; [reflexivity |].
  exact (wait_for_completion_outcome 10 late_success_source late_success_handle
           (Some 10%N) (Some 15%N) _ _ eq_refl).
Defined.

(** C3 witness: a Post request built for the documents route. *)
Lemma method_verb_and_body_witness :
  exists pr,
    build_request (fun _ : unit => @Ok string Error "") (Some "1.0.0")
      "http://localhost:7700/indexes/movies/documents" (Some "masterKey")
      (@Post unit (list string) tt ["doc"]) "application/json" = Ok pr /\
    pr_method pr = POST /\ pr_body pr = Some ["doc"].
Proof.
  eexists. split; [reflexivity |].
  destruct (method_verb_and_body (fun _ : unit => @Ok string Error "") (Some "1.0.0")
              "http://localhost:7700/indexes/movies/documents" (Some "masterKey")
              (@Post unit (list string) tt ["doc"]) "application/json" _ eq_refl)
    as [Hm [Hb _]].
  split; [exact Hm | exact Hb].
Defined.

(** C5 witness: a Get request with an API key, and one without. *)
Lemma request_headers_witness :
  (exists pr,
    build_request (fun _ : unit => @Ok string Error "") (Some "1.0.0")
      "http://localhost:7700/indexes" (Some "masterKey")
      (@Get unit unit tt) "application/json" = Ok pr /\
    header_values "Authorization" (pr_headers pr) = ["Bearer masterKey"] /\
    header_values "User-Agent" (pr_headers pr) = ["Meilisearch Rust (v1.0.0)"]) /\
  (exists pr,
    build_request (fun _ : unit => @Ok string Error "") (Some "1.0.0")
      "http://localhost:7700/indexes" None
      (@Get unit unit tt) "application/json" = Ok pr /\
    header_values "Authorization" (pr_headers pr) = []).
Proof.
  split.
  - eexists. split; [reflexivity |].
    destruct (request_headers (fun _ : unit => @Ok string Error "") (Some "1.0.0")
                "http://localhost:7700/indexes" (Some "masterKey")
                (@Get unit unit tt) "application/json" _ eq_refl) as [Ha [Hu _]].
    split; [exact Ha | exact Hu].
  - eexists. split; [reflexivity |].
    exact (proj1 (request_headers (fun _ : unit => @Ok string Error "") (Some "1.0.0")
                    "http://localhost:7700/indexes" None
                    (@Get unit unit tt) "application/json" _ eq_refl)).
Defined.

(** C9 witness: a serializer that writes no field as the empty string. *)
Lemma documents_query_fresh_witness :
  add_query_parameters
    (fun q => (fun _ : list (string * Documents.SerValue) => @Ok string Error "")
                (Documents.serialize q))
    "http://localhost:7700/indexes/movies/documents" (Documents.new tt) =
  Ok "http://localhost:7700/indexes/movies/documents".
Proof.
  exact (proj2 (proj2 (proj2 (proj2
    (documents_query_fresh (fun _ => @Ok string Error "") eq_refl tt
       "http://localhost:7700/indexes/movies/documents"))))).
Defined.

Import IndexSettingMacro.

Lemma names_ok_nil (valid s l : gset string) : names_ok valid s l [].
Proof. unfold names_ok. repeat split; try constructor; set_solver. Qed.

Lemma names_ok_cons (valid s l : gset string) (i : string) (ids : list string) :
  names_ok valid s l (i :: ids) <->
  ((i ∉ l) /\ (i ∈ valid) /\ (i = "primary_key" -> "primary_key" ∉ s) /\
   (i = "distinct" -> "distinct" ∉ s)) /\
  names_ok valid ({[ i ]} ∪ s) ({[ i ]} ∪ l) ids.
Proof.
  unfold names_ok. rewrite NoDup_cons. split.
  - intros ((Hi & Hnd) & Hl & Hv & Hp & Hd).
    split; [repeat split; intros; subst; set_solver |].
    repeat split; [exact Hnd | set_solver | set_solver | |].
    + intros Hin. apply elem_of_union in Hin as [Hin | Hin].
      * apply elem_of_singleton in Hin. subst. exact Hi.
      * set_solver.
    + intros Hin. apply elem_of_union in Hin as [Hin | Hin].
      * apply elem_of_singleton in Hin. subst. exact Hi.
      * set_solver.
  - intros ((Hl & Hv & Hp & Hd) & Hnd & Hl' & Hv' & Hp' & Hd').
    repeat split.
    + intros Hin. specialize (Hl' i Hin). set_solver.
    + exact Hnd.
    + intros x Hx. apply elem_of_cons in Hx as [-> | Hx]; [exact Hl |].
      specialize (Hl' x Hx). set_solver.
    + intros x Hx. apply elem_of_cons in Hx as [-> | Hx]; auto.
    + intros Hs Hin. apply elem_of_cons in Hin as [Hin | Hin].
      * exact (Hp (eq_sym Hin) Hs).
      * apply Hp'; [set_solver | exact Hin].
    + intros Hs Hin. apply elem_of_cons in Hin as [Hin | Hin].
      * exact (Hd (eq_sym Hin) Hs).
      * apply Hd'; [set_solver | exact Hin].
Qed.

Lemma names_ok_app (valid s l : gset string) (a b : list string) :
  names_ok valid s l (a ++ b) <->
  names_ok valid s l a /\ names_ok valid (list_to_set a ∪ s) (list_to_set a ∪ l) b.
Proof.
  revert s l. induction a as [| i a IH]; intros s l; cbn.
  - split; [intros H; split; [apply names_ok_nil |] | intros [_ H]];
      (eapply iff_refl in H || idtac);
      unfold names_ok in *; destruct H as (H1 & H2 & H3 & H4 & H5);
      repeat split; auto; set_solver.
  - rewrite !names_ok_cons, IH.
    assert (Hs : forall X : gset string, list_to_set a ∪ ({[ i ]} ∪ X) = {[ i ]} ∪ list_to_set a ∪ X)
      by (intros; set_solver).
    rewrite !Hs. tauto.
Qed.

Lemma contains_false (s : gset string) (x : string) : contains s x = false <-> x ∉ s.
Proof. unfold contains. apply bool_decide_eq_false. Qed.

Lemma contains_true (s : gset string) (x : string) : contains s x = true <-> x ∈ s.
Proof. unfold contains. apply bool_decide_eq_true. Qed.

(** Closes [Ok (s, l, n) = Ok (s', l', n')] component-wise. *)
Ltac close_triple :=
  repeat match goal with
         | |- Ok _ = Ok _ => f_equal
         | |- (_, _) = (_, _) => f_equal
         end;
  first [ reflexivity | rewrite <- app_assoc; reflexivity | set_solver ].

(** A successful pass over one [index_config] list appends its
    identifiers to the names and to both sets, and they pass the checks. *)
Lemma extract_group_ok (valid : gset string) (ts : list TokenTree)
    (s l : gset string) (n : list string) (s' l' : gset string) (n' : list string) :
  extract_group valid ts s l n = Ok (s', l', n') ->
  n' = (n ++ group_idents ts)%list /\ s' = list_to_set (group_idents ts) ∪ s /\
  l' = list_to_set (group_idents ts) ∪ l /\ names_ok valid s l (group_idents ts).
Proof.
  revert s l n. induction ts as [| t ts IH]; intros s l n H; cbn in H.
  - injection H as <- <- <-. cbn. rewrite app_nil_r.
    split; [reflexivity |]. split; [set_solver |]. split; [set_solver | apply names_ok_nil].
  - destruct t as [g | i | c sp | lit]; try discriminate.
    + destruct (String.eqb i "primary_key" && contains s "primary_key") eqn:E1;
        [discriminate |].
      destruct (String.eqb i "distinct" && contains s "distinct") eqn:E2; [discriminate |].
      destruct (contains l i) eqn:E3; [discriminate |].
      destruct (negb (contains valid i)) eqn:E4; [discriminate |].
      apply IH in H as (-> & -> & -> & Hok).
      change (group_idents (Ident i :: ts)) with (i :: group_idents ts).
      split; [rewrite <- app_assoc; reflexivity |].
      split; [cbn; set_solver |]. split; [cbn; set_solver |].
      apply names_ok_cons. split; [| exact Hok].
      apply negb_false_iff, contains_true in E4.
      apply contains_false in E3.
      repeat split; [exact E3 | exact E4 | |]; intros ->; cbn in E1, E2;
        apply contains_false; assumption.
    + destruct (validate_punct c sp); [| discriminate].
      apply IH in H. exact H.
Qed.

(** Conversely, a well-formed list whose identifiers pass the checks is
    accepted. *)
Lemma extract_group_complete (valid : gset string) (ts : list TokenTree)
    (s l : gset string) (n : list string) :
  group_well_formed ts -> names_ok valid s l (group_idents ts) ->
  extract_group valid ts s l n =
    Ok (list_to_set (group_idents ts) ∪ s, list_to_set (group_idents ts) ∪ l,
        (n ++ group_idents ts)%list).
Proof.
  revert s l n. induction ts as [| t ts IH]; intros s l n Hwf Hok.
  - cbn. rewrite app_nil_r. close_triple.
  - inversion Hwf as [| ? ? Ht Hwf']; subst.
    destruct t as [g | i | c sp | lit]; try contradiction.
    + change (group_idents (Ident i :: ts)) with (i :: group_idents ts) in *.
      apply names_ok_cons in Hok as ((Hl & Hv & Hp & Hd) & Hok).
      cbn.
      destruct (String.eqb_spec i "primary_key") as [-> | Hnp].
      { rewrite (proj2 (contains_false s "primary_key") (Hp eq_refl)). cbn.
        rewrite (proj2 (contains_false l _) Hl), (proj2 (contains_true valid _) Hv). cbn.
        rewrite IH by assumption. cbn. close_triple. }
      cbn. destruct (String.eqb_spec i "distinct") as [-> | Hnd].
      { rewrite (proj2 (contains_false s "distinct") (Hd eq_refl)). cbn.
        rewrite (proj2 (contains_false l _) Hl), (proj2 (contains_true valid _) Hv). cbn.
        rewrite IH by assumption. cbn. close_triple. }
      cbn. rewrite (proj2 (contains_false l _) Hl), (proj2 (contains_true valid _) Hv). cbn.
      rewrite IH by assumption. cbn. close_triple.
    + destruct Ht as [-> ->]. cbn. apply IH; assumption.
Qed.

Lemma tokens_idents_cons (t : TokenTree) (ts : list TokenTree) :
  tokens_idents (t :: ts) =
  ((match t with Group g => group_idents g | _ => [] end) ++ tokens_idents ts)%list.
Proof. reflexivity. Qed.

Lemma annotations_cons (a : Attribute) (attrs : list Attribute) :
  annotations (a :: attrs) = (attr_annotations a ++ annotations attrs)%list.
Proof. reflexivity. Qed.

Lemma extract_tokens_ok (valid : gset string) (ts : list TokenTree)
    (s l : gset string) (n : list string) (s' l' : gset string) (n' : list string) :
  extract_tokens valid ts s l n = Ok (s', l', n') ->
  n' = (n ++ tokens_idents ts)%list /\ s' = list_to_set (tokens_idents ts) ∪ s /\
  l' = list_to_set (tokens_idents ts) ∪ l /\ names_ok valid s l (tokens_idents ts).
Proof.
  revert s l n. induction ts as [| t ts IH]; intros s l n H.
  - cbn in H. injection H as <- <- <-. cbn. rewrite app_nil_r.
    split; [reflexivity |]. split; [set_solver |]. split; [set_solver | apply names_ok_nil].
  - rewrite tokens_idents_cons.
    destruct t as [g | i | c sp | lit]; cbn [app extract_tokens] in H |- *;
      [| apply IH; exact H ..].
    destruct (extract_group valid g s l n) as [[[s1 l1] n1] | e] eqn:Hg; [| discriminate].
    apply extract_group_ok in Hg as (-> & -> & -> & Hok1).
    apply IH in H as (-> & -> & -> & Hok2).
    split; [rewrite app_assoc; reflexivity |].
    split; [rewrite list_to_set_app_L; set_solver |].
    split; [rewrite list_to_set_app_L; set_solver |].
    apply names_ok_app. split; assumption.
Qed.

Lemma extract_tokens_complete (valid : gset string) (ts : list TokenTree)
    (s l : gset string) (n : list string) :
  Forall (fun t => match t with Group g => group_well_formed g | _ => True end) ts ->
  names_ok valid s l (tokens_idents ts) ->
  extract_tokens valid ts s l n =
    Ok (list_to_set (tokens_idents ts) ∪ s, list_to_set (tokens_idents ts) ∪ l,
        (n ++ tokens_idents ts)%list).
Proof.
  revert s l n. induction ts as [| t ts IH]; intros s l n Hwf Hok.
  - cbn. rewrite app_nil_r. close_triple.
  - inversion Hwf as [| ? ? Ht Hwf']; subst.
    rewrite tokens_idents_cons in *.
    destruct t as [g | i | c sp | lit]; cbn [app extract_tokens] in Hok |- *;
      [| rewrite IH by assumption; reflexivity ..].
    apply names_ok_app in Hok as [Hok1 Hok2].
    rewrite extract_group_complete by assumption.
    rewrite IH by assumption.
    rewrite list_to_set_app_L. close_triple.
Qed.

Lemma extract_attrs_ok (valid : gset string) (attrs : list Attribute)
    (s l : gset string) (n : list string) (s' : gset string) (n' : list string) :
  extract_attrs valid attrs s l n = Ok (s', n') ->
  n' = (n ++ annotations attrs)%list /\ s' = list_to_set (annotations attrs) ∪ s /\
  names_ok valid s l (annotations attrs).
Proof.
  revert s l n. induction attrs as [| a attrs IH]; intros s l n H.
  - cbn in H. injection H as <- <-. cbn. rewrite app_nil_r.
    split; [reflexivity |]. split; [set_solver | apply names_ok_nil].
  - rewrite annotations_cons. unfold attr_annotations. cbn in H.
    destruct (parse_meta a) as [[p | p | p] | e].
    + apply IH; exact H.
    + destruct (String.eqb p "index_config").
      * destruct (extract_tokens valid (tokens a) s l n) as [[[s1 l1] n1] | e] eqn:Ht;
          [| discriminate].
        apply extract_tokens_ok in Ht as (-> & -> & -> & Hok1).
        apply IH in H as (-> & -> & Hok2).
        split; [rewrite app_assoc; reflexivity |].
        split; [rewrite list_to_set_app_L; set_solver |].
        apply names_ok_app. split; assumption.
      * apply IH; exact H.
    + apply IH; exact H.
    + destruct (check_puncts (tokens a)); discriminate.
Qed.

Lemma extract_attrs_complete (valid : gset string) (attrs : list Attribute)
    (s l : gset string) (n : list string) :
  Forall attr_well_formed attrs ->
  names_ok valid s l (annotations attrs) ->
  extract_attrs valid attrs s l n =
    Ok (list_to_set (annotations attrs) ∪ s, (n ++ annotations attrs)%list).
Proof.
  revert s l n. induction attrs as [| a attrs IH]; intros s l n Hwf Hok.
  - cbn. rewrite app_nil_r. f_equal. f_equal. set_solver.
  - inversion Hwf as [| ? ? Ha Hwf']; subst.
    rewrite annotations_cons in *. unfold attr_well_formed, attr_annotations in *. cbn.
    destruct (parse_meta a) as [[p | p | p] | e]; try contradiction; cbn [app] in Hok |- *;
      [rewrite IH by assumption; reflexivity | | rewrite IH by assumption; reflexivity].
    destruct (String.eqb p "index_config") eqn:Ep; cbn [negb];
      [apply String.eqb_eq in Ep; subst p | rewrite IH by assumption; reflexivity].
    apply names_ok_app in Hok as [Hok1 Hok2].
    rewrite extract_tokens_complete by auto.
    rewrite IH by assumption.
    rewrite list_to_set_app_L. f_equal. f_equal; [set_solver | rewrite app_assoc; reflexivity].
Qed.

(** A successful pass over an [index_config] list, over the tokens of an
    attribute and over the attributes of a field implies that they are well
    formed. *)
Lemma extract_group_wf (valid : gset string) (ts : list TokenTree)
    (s l : gset string) (n : list string) (r : gset string * gset string * list string) :
  extract_group valid ts s l n = Ok r -> group_well_formed ts.
Proof.
  revert s l n. induction ts as [| t ts IH]; intros s l n H; [constructor |].
  cbn in H. destruct t as [g | i | c sp | lit]; try discriminate H.
  - constructor; [exact I |].
    destruct (String.eqb i "primary_key" && contains s "primary_key"); [discriminate H |].
    destruct (String.eqb i "distinct" && contains s "distinct"); [discriminate H |].
    destruct (contains l i); [discriminate H |].
    destruct (negb (contains valid i)); [discriminate H |].
    exact (IH _ _ _ H).
  - destruct (validate_punct c sp) eqn:Hp; [| discriminate H].
    constructor; [| exact (IH _ _ _ H)].
    destruct sp; cbn in Hp; [| discriminate Hp].
    destruct (Ascii.eqb_spec c ","%char) as [-> |]; [split; reflexivity | discriminate Hp].
Qed.

Lemma extract_tokens_wf (valid : gset string) (ts : list TokenTree)
    (s l : gset string) (n : list string) (r : gset string * gset string * list string) :
  extract_tokens valid ts s l n = Ok r ->
  Forall (fun t => match t with Group g => group_well_formed g | _ => True end) ts.
Proof.
  revert s l n. induction ts as [| t ts IH]; intros s l n H; [constructor |].
  destruct t as [g | i | c sp | lit]; cbn [extract_tokens] in H;
    [| constructor; [exact I | exact (IH _ _ _ H)] ..].
  destruct (extract_group valid g s l n) as [[[s1 l1] n1] | e] eqn:Hg; [| discriminate H].
  constructor; [exact (extract_group_wf _ _ _ _ _ _ Hg) | exact (IH _ _ _ H)].
Qed.

Lemma extract_attrs_wf (valid : gset string) (attrs : list Attribute)
    (s l : gset string) (n : list string) (r : gset string * list string) :
  extract_attrs valid attrs s l n = Ok r -> Forall attr_well_formed attrs.
Proof.
  revert s l n. induction attrs as [| a attrs IH]; intros s l n H; [constructor |].
  cbn in H.
  destruct (parse_meta a) as [[p | p | p] | e] eqn:Hm;
    (constructor; [unfold attr_well_formed; rewrite Hm |]).
  - exact I.
  - exact (IH _ _ _ H).
  - destruct (String.eqb p "index_config") eqn:Ep; cbn [negb] in H.
    + destruct (extract_tokens valid (tokens a) s l n) as [[[s1 l1] n1] | e] eqn:Ht;
        [| discriminate H].
      intros _; exact (extract_tokens_wf _ _ _ _ _ _ Ht).
    + intros Hp; subst p; discriminate Ep.
  - destruct (String.eqb p "index_config"); cbn [negb] in H;
      [destruct (extract_tokens valid (tokens a) s l n) as [[[s1 l1] n1] | e] eqn:Ht;
         [| discriminate H] |]; exact (IH _ _ _ H).
  - exact I.
  - exact (IH _ _ _ H).
  - destruct (check_puncts (tokens a)); discriminate H.
  - destruct (check_puncts (tokens a)); discriminate H.
Qed.

(** C10 (amended): [extract_all_attr_values] accepts a field only when
    its annotation names (the identifiers of its [index_config] lists, in
    order) repeat nothing on the field, are all among displayed,
    searchable, filterable, sortable, primary_key and distinct, and when
    [primary_key] and [distinct] were not already seen on the struct; it
    then returns exactly those names. A field with an attribute that does
    not parse, or with an [index_config] list holding anything other than
    identifiers separated by lone commas (a literal, a nested group, other
    punctuation), is rejected with an error. Conversely, a field whose
    attributes are of that form and whose names pass these checks is
    accepted, with the names added to the struct-wide set. *)
Theorem extract_all_attr_values_checks (attrs : list Attribute) (s : gset string) :
  (forall s' names,
     extract_all_attr_values attrs s valid_attribute_names = Ok (s', names) ->
     names = annotations attrs /\ NoDup names /\
     (forall x, x ∈ names -> x ∈ valid_attribute_names) /\
     ("primary_key" ∈ s -> "primary_key" ∉ names) /\
     ("distinct" ∈ s -> "distinct" ∉ names)) /\
  (~ Forall attr_well_formed attrs ->
   exists e, extract_all_attr_values attrs s valid_attribute_names = Err e) /\
  (Forall attr_well_formed attrs -> NoDup (annotations attrs) ->
   (forall x, x ∈ annotations attrs -> x ∈ valid_attribute_names) ->
   ("primary_key" ∈ s -> "primary_key" ∉ annotations attrs) ->
   ("distinct" ∈ s -> "distinct" ∉ annotations attrs) ->
   extract_all_attr_values attrs s valid_attribute_names =
     Ok (list_to_set (annotations attrs) ∪ s, annotations attrs)).
Proof.
  unfold extract_all_attr_values. split; [| split].
  - intros s' names H. apply extract_attrs_ok in H as (-> & _ & (Hnd & _ & Hv & Hp & Hd)).
    repeat split; auto.
  - intros Hnwf.
    destruct (extract_attrs valid_attribute_names attrs s ∅ []) as [r | e] eqn:Hx;
      [| exists e; reflexivity].
    exfalso. exact (Hnwf (extract_attrs_wf _ _ _ _ _ _ Hx)).
  - intros Hwf Hnd Hv Hp Hd.
    rewrite extract_attrs_complete; [reflexivity | exact Hwf |].
    unfold names_ok. repeat split; auto. set_solver.
Qed.

(** C10 (counterexample): [#[index_config(1)]] has no annotation name, so
    none of the four listed faults, yet it is rejected. *)
Lemma extract_all_attr_values_literal :
  annotations [literal_attr] = [] /\
  extract_all_attr_values [literal_attr] ∅ valid_attribute_names = Err "Invalid parsing".
Proof. split; reflexivity. Qed.

Lemma existsb_eqb_notin (x : string) (l : list string) :
  x ∉ l -> existsb (String.eqb x) l = false.
Proof.
  induction l as [| y l IH]; intros Hx; [reflexivity |].
  cbn. apply not_elem_of_cons in Hx as [Hxy Hx].
  rewrite IH by exact Hx. rewrite orb_false_r.
  apply String.eqb_neq. exact Hxy.
Qed.

(** Rewrites [String.eqb c x] to [false] from [String.eqb x c = false]. *)
Ltac eqb_false_rw :=
  repeat match goal with
         | E : String.eqb ?x ?c = false |- context [String.eqb ?c ?x] =>
             rewrite (String.eqb_sym c x), E
         | E : String.eqb ?x ?c = false, H : context [String.eqb ?c ?x] |- _ =>
             rewrite (String.eqb_sym c x), E in H
         end.

(** Evaluates [String.eqb] on two distinct or equal literals. *)
Ltac eqb_lit_rw :=
  repeat first
    [ rewrite String.eqb_refl
    | match goal with
      | |- context [String.eqb ?c ?x] =>
          rewrite (proj2 (String.eqb_neq c x)) by discriminate
      end ].

(** Pushing the (duplicate-free) names of one field: each of the four
    lists gains the field's name when the field carries its annotation,
    [distinct] sets the distinct key, the struct-wide set is untouched. *)
Lemma push_attributes_ok (ident : option string) (names : list string)
    (st st' : MacroState) :
  push_attributes ident names st = Ok st' -> NoDup names ->
  attribute_set st' = attribute_set st /\
  (forall a, a = "displayed" \/ a = "searchable" \/ a = "filterable" \/ a = "sortable" ->
     attr_list a st' =
       (attr_list a st ++
        (if existsb (String.eqb a) names
         then match ident with Some n => [n] | None => [] end else []))%list) /\
  (existsb (String.eqb "distinct") names = true -> ident = Some (distinct_key_attribute st')) /\
  (existsb (String.eqb "distinct") names = false ->
   distinct_key_attribute st' = distinct_key_attribute st).
Proof.
  revert st. induction names as [| a0 rest IH]; intros st H Hnd.
  - cbn in H. injection H as <-.
    split; [reflexivity |]. split; [intros a _; rewrite app_nil_r; reflexivity |].
    split; [discriminate | reflexivity].
  - apply NoDup_cons in Hnd as [Hnot Hnd].
    apply existsb_eqb_notin in Hnot.
    cbn [push_attributes] in H.
    destruct (String.eqb a0 "displayed") eqn:E1;
    [apply String.eqb_eq in E1; subst a0
    | destruct (String.eqb a0 "searchable") eqn:E2;
    [apply String.eqb_eq in E2; subst a0
    | destruct (String.eqb a0 "filterable") eqn:E3;
    [apply String.eqb_eq in E3; subst a0
    | destruct (String.eqb a0 "sortable") eqn:E4;
    [apply String.eqb_eq in E4; subst a0
    | destruct (String.eqb a0 "primary_key") eqn:E5;
    [apply String.eqb_eq in E5; subst a0
    | destruct (String.eqb a0 "distinct") eqn:E6;
    [apply String.eqb_eq in E6; subst a0 | ]]]]]];
    cbv beta iota in H;
    try (destruct ident as [n |]; [| discriminate H]);
    apply IH in H as (Hs & Hl & Hd1 & Hd2); try exact Hnd;
    (split; [exact Hs |]); split.
  all: try (intros a Ha; rewrite Hl by exact Ha;
         destruct Ha as [-> | [-> | [-> | ->]]];
         cbn [existsb attr_list displayed_attributes searchable_attributes
              filterable_attributes sortable_attributes];
         eqb_false_rw; eqb_lit_rw; cbn [orb]; rewrite ?Hnot;
         rewrite ?app_nil_r; reflexivity).
  all: cbn [existsb distinct_key_attribute] in Hd2 |- *;
       eqb_false_rw; eqb_lit_rw; cbn [orb].
  all: first [ split; [exact Hd1 | exact Hd2]
             | split; [intros _; rewrite (Hd2 Hnot); reflexivity | discriminate] ].
Qed.

(** The field loop: each list is extended by the names of the fields
    carrying its annotation, in order; once [distinct] is in the set no
    later field carries it; the distinct key is the name of the field
    carrying [distinct], and is unchanged when none does. *)
Lemma process_fields_ok (fields : list Field) (st st' : MacroState) :
  process_fields fields st = Ok st' ->
  (forall a, a = "displayed" \/ a = "searchable" \/ a = "filterable" \/ a = "sortable" ->
     attr_list a st' = (attr_list a st ++ names_with a fields)%list) /\
  ("distinct" ∈ attribute_set st -> forall f, In f fields -> carries "distinct" f = false) /\
  ((forall f, In f fields -> carries "distinct" f = false) ->
   distinct_key_attribute st' = distinct_key_attribute st) /\
  (forall f, In f fields -> carries "distinct" f = true ->
   field_ident f = Some (distinct_key_attribute st')).
Proof.
  revert st. induction fields as [| f rest IH]; intros st H.
  - cbn in H. injection H as <-.
    split; [intros a _; rewrite app_nil_r; reflexivity |].
    split; [intros _ f [] |]. split; [reflexivity | intros f []].
  - cbn [process_fields] in H.
    destruct (extract_all_attr_values (attrs f) (attribute_set st) valid_attribute_names)
      as [[s1 ann] | e] eqn:Hx; [| discriminate H].
    unfold extract_all_attr_values in Hx.
    apply extract_attrs_ok in Hx as (Hann & Hs1 & (Hnd & _ & _ & _ & Hdis)).
    cbn in Hann. subst ann s1.
    destruct (push_attributes (field_ident f) (annotations (attrs f)) _) as [st2 | e] eqn:Hp;
      [| discriminate H].
    apply push_attributes_ok in Hp as (Hs2 & Hl2 & Hd21 & Hd22); [| exact Hnd].
    apply IH in H as (Hl & Hb & Hc & Hd).
    cbn [attribute_set distinct_key_attribute] in Hs2, Hd22.
    assert (Hcar : forall a, carries a f = existsb (String.eqb a) (annotations (attrs f)))
      by reflexivity.
    split; [| split; [| split]].
    + intros a Ha. rewrite Hl by exact Ha. rewrite Hl2 by exact Ha.
      cbn [names_with flat_map]. fold (names_with a rest). rewrite <- Hcar.
      rewrite app_assoc. f_equal.
    + intros Hin g [<- | Hg].
      * rewrite Hcar. apply existsb_eqb_notin. exact (Hdis Hin).
      * apply Hb; [rewrite Hs2; set_solver | exact Hg].
    + intros Hno. rewrite Hc by (intros g Hg; apply Hno; right; exact Hg).
      apply Hd22. rewrite <- Hcar. apply Hno. left. reflexivity.
    + intros g [<- | Hg] Hgc.
      * rewrite Hcar in Hgc. rewrite (Hd21 Hgc). f_equal. symmetry. apply Hc.
        intros g Hg. apply Hb; [| exact Hg]. rewrite Hs2.
        apply elem_of_union_l. apply elem_of_list_to_set.
        apply existsb_exists in Hgc as (y & Hy & Hye). apply String.eqb_eq in Hye.
        subst y. apply list_elem_of_In. exact Hy.
      * apply Hd; assumption.
Qed.

(** A name in [names_with a] is that of a field carrying [a]. *)
Lemma names_with_in (a n : string) (fields : list Field) :
  n ∈ names_with a fields ->
  exists f, In f fields /\ carries a f = true /\ field_ident f = Some n.
Proof.
  intros H. apply list_elem_of_In in H. unfold names_with in H.
  apply in_flat_map in H as (f & Hf & Hn).
  destruct (carries a f) eqn:Hc; [| destruct Hn].
  destruct (field_ident f) as [m |] eqn:Hi; [| destruct Hn].
  destruct Hn as [<- | []]. exists f. auto.
Qed.

(** Field names declared once identify the field. *)
Lemma field_names_unique (fields : list Field) (f g : Field) (n : string) :
  NoDup (field_names fields) -> In f fields -> In g fields ->
  field_ident f = Some n -> field_ident g = Some n -> f = g.
Proof.
  induction fields as [| h rest IH]; intros Hnd Hf Hg Hfn Hgn; [destruct Hf |].
  cbn [field_names flat_map] in Hnd. fold (field_names rest) in Hnd.
  assert (Hrest : forall k, In k rest -> field_ident k = Some n -> n ∈ field_names rest).
  { intros k Hk Hkn. apply list_elem_of_In. unfold field_names.
    apply in_flat_map. exists k. rewrite Hkn. split; [exact Hk | left; reflexivity]. }
  destruct Hf as [<- | Hf]; destruct Hg as [<- | Hg]; [reflexivity | | | ].
  - rewrite Hfn in Hnd. cbn in Hnd. apply NoDup_cons in Hnd as [Hni _].
    exfalso. exact (Hni (Hrest g Hg Hgn)).
  - rewrite Hgn in Hnd. cbn in Hnd. apply NoDup_cons in Hnd as [Hni _].
    exfalso. exact (Hni (Hrest f Hf Hfn)).
  - apply NoDup_app in Hnd as (_ & _ & Hnd). apply IH; assumption.
Qed.

(** C7: for a struct whose fields have non-empty, pairwise distinct names
    and whose derive expands without error, [generate_settings()] returns
    settings whose displayed, searchable, filterable and sortable lists
    are exactly the names of the fields carrying that annotation, in
    declaration order; whose distinct attribute is [Some n] exactly when
    a field named [n] carries [distinct]; and a field with no annotation
    appears in no list and is not the distinct attribute. *)
Theorem generate_settings_spec (fields : list Field) (cfg : IndexConfigImpl)
    (Hok : get_index_config_implementation fields = Ok cfg)
    (Hnames : Forall (fun f => field_ident f <> Some "") fields)
    (Hnodup : NoDup (field_names fields)) :
  Settings.displayed_attributes (generate_settings cfg) = Some (names_with "displayed" fields) /\
  Settings.searchable_attributes (generate_settings cfg) = Some (names_with "searchable" fields) /\
  Settings.filterable_attributes (generate_settings cfg) = Some (names_with "filterable" fields) /\
  Settings.sortable_attributes (generate_settings cfg) = Some (names_with "sortable" fields) /\
  (forall n, Settings.distinct_attribute (generate_settings cfg) = Some n <->
     exists f, In f fields /\ carries "distinct" f = true /\ field_ident f = Some n) /\
  (forall f n, In f fields -> field_annotations f = [] -> field_ident f = Some n ->
     (n ∉ names_with "displayed" fields) /\ (n ∉ names_with "searchable" fields) /\
     (n ∉ names_with "filterable" fields) /\ (n ∉ names_with "sortable" fields) /\
     Settings.distinct_attribute (generate_settings cfg) <> Some n).
Proof.
  unfold get_index_config_implementation in Hok.
  destruct (process_fields fields init_state) as [st | e] eqn:Hp; [| discriminate Hok].
  injection Hok as <-.
  apply process_fields_ok in Hp as (Hl & _ & Hc & Hd).
  assert (Hlist : forall a, a = "displayed" \/ a = "searchable" \/ a = "filterable" \/ a = "sortable" ->
            attr_list a st = names_with a fields)
    by (intros a Ha; rewrite (Hl a Ha); destruct Ha as [-> | [-> | [-> | ->]]]; reflexivity).
  assert (Hdis : forall n, Settings.distinct_attribute
      (settings_token_for_string Settings.with_distinct_attribute (distinct_key_attribute st)
         (Settings.with_searchable_attributes
            (Settings.with_filterable_attributes
               (Settings.with_sortable_attributes
                  (Settings.with_displayed_attributes Settings.new (displayed_attributes st))
                  (sortable_attributes st))
               (filterable_attributes st))
            (searchable_attributes st))) = Some n <->
      exists f, In f fields /\ carries "distinct" f = true /\ field_ident f = Some n).
  { intros n. unfold settings_token_for_string.
    destruct (String.eqb_spec (distinct_key_attribute st) "") as [He | He]; cbn; split.
    - discriminate.
    - intros (f & Hf & Hfc & Hfn). rewrite (Hd f Hf Hfc) in Hfn. injection Hfn as Hfn.
      rewrite List.Forall_forall in Hnames. exfalso. apply (Hnames f Hf).
      rewrite (Hd f Hf Hfc), He. reflexivity.
    - intros Hn. injection Hn as <-.
      destruct (existsb (carries "distinct") fields) eqn:Hex.
      + apply existsb_exists in Hex as (f & Hf & Hfc). exists f. auto.
      + exfalso. apply He. apply Hc. intros f Hf.
        destruct (carries "distinct" f) eqn:Hfc; [| reflexivity].
        rewrite <- Hex. symmetry. apply existsb_exists. exists f. auto.
    - intros (f & Hf & Hfc & Hfn). rewrite (Hd f Hf Hfc) in Hfn. exact Hfn. }
  assert (Hsame : forall s : Settings.Settings,
      Settings.displayed_attributes
        (settings_token_for_string Settings.with_distinct_attribute (distinct_key_attribute st) s)
      = Settings.displayed_attributes s /\
      Settings.searchable_attributes
        (settings_token_for_string Settings.with_distinct_attribute (distinct_key_attribute st) s)
      = Settings.searchable_attributes s /\
      Settings.filterable_attributes
        (settings_token_for_string Settings.with_distinct_attribute (distinct_key_attribute st) s)
      = Settings.filterable_attributes s /\
      Settings.sortable_attributes
        (settings_token_for_string Settings.with_distinct_attribute (distinct_key_attribute st) s)
      = Settings.sortable_attributes s)
    by (intros s; unfold settings_token_for_string;
        destruct (String.eqb _ _); repeat split).
  cbn [generate_settings].
  destruct (Hsame (Settings.with_searchable_attributes
            (Settings.with_filterable_attributes
               (Settings.with_sortable_attributes
                  (Settings.with_displayed_attributes Settings.new (displayed_attributes st))
                  (sortable_attributes st))
               (filterable_attributes st))
            (searchable_attributes st))) as (E1 & E2 & E3 & E4).
  rewrite E1, E2, E3, E4. cbn. unfold Settings.collect_strings. rewrite !map_id.
  rewrite <- (Hlist "displayed"), <- (Hlist "searchable"), <- (Hlist "filterable"),
    <- (Hlist "sortable") by auto.
  split; [reflexivity |]. split; [reflexivity |]. split; [reflexivity |].
  split; [reflexivity |]. split; [exact Hdis |].
  rewrite (Hlist "displayed"), (Hlist "searchable"), (Hlist "filterable"),
    (Hlist "sortable") by auto.
  intros f n Hf Hann Hfn.
  assert (Hnone : forall a, n ∈ names_with a fields -> False).
  { intros a Hin. apply names_with_in in Hin as (g & Hg & Hgc & Hgn).
    rewrite (field_names_unique fields g f n Hnodup Hg Hf Hgn Hfn) in Hgc.
    unfold carries in Hgc. rewrite Hann in Hgc. discriminate Hgc. }
  split; [intros Hin; exact (Hnone _ Hin) |].
  split; [intros Hin; exact (Hnone _ Hin) |].
  split; [intros Hin; exact (Hnone _ Hin) |].
  split; [intros Hin; exact (Hnone _ Hin) |].
  intros Hn. apply Hdis in Hn as (g & Hg & Hgc & Hgn).
  rewrite (field_names_unique fields g f n Hnodup Hg Hf Hgn Hfn) in Hgc.
  unfold carries in Hgc. rewrite Hann in Hgc. discriminate Hgc.
Qed.

(** C7 (witness): the [MovieClips] struct of the tests of documents.rs. *)
Lemma generate_settings_spec_witness :
  exists cfg, get_index_config_implementation movie_clips_fields = Ok cfg /\
  Settings.displayed_attributes (generate_settings cfg) =
    Some ["title"; "description"; "release_date"; "genres"] /\
  Settings.searchable_attributes (generate_settings cfg) = Some ["title"] /\
  Settings.filterable_attributes (generate_settings cfg) = Some ["release_date"; "genres"] /\
  Settings.sortable_attributes (generate_settings cfg) = Some ["release_date"] /\
  Settings.distinct_attribute (generate_settings cfg) = Some "owner".
Proof.
  destruct (get_index_config_implementation movie_clips_fields) as [cfg | e] eqn:Hg;
    [| vm_compute in Hg; discriminate Hg].
  exists cfg. split; [reflexivity |].
  pose proof (generate_settings_spec movie_clips_fields cfg Hg
    ltac:(repeat constructor; discriminate)
    ltac:(apply (bool_decide_unpack _); vm_compute; reflexivity)) as (H1 & H2 & H3 & H4 & H5 & _).
  rewrite H1, H2, H3, H4. split; [reflexivity |]. split; [reflexivity |].
  split; [reflexivity |]. split; [reflexivity |].
  apply H5. exists (nth 1 movie_clips_fields {| field_ident := None; attrs := [] |}).
  split; [right; left; reflexivity | split; reflexivity].
Defined.

(** * Further properties of the code *)

(** A status other than the expected one, at least 400, with a body that
    is not a [MeilisearchError] becomes [MeilisearchCommunication] with no
    message and the url without its query string; the url sent is that url
    followed by [?] and the query string when the latter is non-empty. *)
Theorem request_communication_error_url {Q B Output : Type}
    (yaup_to_string : Q -> result string Error)
    (from_str_output : string -> result Output SerdeJsonError)
    (from_str_error : string -> result MeilisearchError SerdeJsonError)
    (send_request : PreparedRequest -> result (N * result string Error) Error)
    (VERSION : option string) (url : string) (apikey : option string)
    (m : Method Q B) (content_type : string) (expected_status_code : N)
    (req : PreparedRequest) (status : N) (text : string) (e : SerdeJsonError)
    (Hbuild : build_request yaup_to_string VERSION url apikey m content_type = Ok req)
    (Hsend : send_request req = Ok (status, Ok text))
    (Hstatus : status <> expected_status_code)
    (H400 : (400 <= status)%N)
    (Hbody : from_str_error (if String.eqb text "" then "null" else text) = Err e) :
  request yaup_to_string from_str_output from_str_error send_request VERSION url apikey
    m content_type expected_status_code =
    Err (MeilisearchCommunication {| status_code := status; message := None; url := url |}) /\
  exists q, yaup_to_string (query m) = Ok q /\
    pr_url req = if String.eqb q "" then url else url ++ "?" ++ q.
Proof.
  split.
  - unfold request. rewrite Hbuild, Hsend. unfold parse_response.
    rewrite (proj2 (N.eqb_neq _ _) Hstatus), Hbody.
    rewrite (proj2 (N.leb_le _ _) H400). reflexivity.
  - unfold build_request, add_query_parameters in Hbuild.
    destruct (yaup_to_string (query m)) as [q | e'] eqn:Hq; [| discriminate Hbuild].
    exists q. split; [reflexivity |]. injection Hbuild as <-.
    destruct m, apikey; reflexivity.
Qed.

(** A 404 with an empty body on a GET with a query. *)
Lemma request_communication_error_url_witness :
  exists req,
    build_request (Q := unit) (B := unit) (fun _ => Ok "limit=1") None
      "http://localhost:7700/indexes" None (Get tt) "application/json" = Ok req /\
    request (Q := unit) (B := unit) (Output := unit) (fun _ => Ok "limit=1") (fun _ => Ok tt)
      (fun _ => Err "expected value") (fun _ => Ok (404%N, Ok "")) None
      "http://localhost:7700/indexes" None (Get tt) "application/json" 200 =
      Err (MeilisearchCommunication
             {| status_code := 404; message := None; url := "http://localhost:7700/indexes" |}) /\
    pr_url req = "http://localhost:7700/indexes?limit=1".
Proof.
  eexists. split; [reflexivity |]. split; [| reflexivity].
  apply (proj1 (request_communication_error_url (fun _ => Ok "limit=1") (fun _ => Ok tt)
    (fun _ => Err "expected value") (fun _ => Ok (404%N, Ok "")) None
    "http://localhost:7700/indexes" None (Get tt) "application/json" 200 _ 404 "" "expected value"
    eq_refl eq_refl ltac:(discriminate) ltac:(vm_compute; discriminate) eq_refl)).
Defined.

(** Two [Settings] builder calls that set different fields commute; a
    second call on the same field overrides the first. *)
Theorem settings_builders_commute (s : Settings.Settings) (c1 c2 : Settings.SettingsCall) :
  (Settings.call_key c1 <> Settings.call_key c2 ->
   Settings.apply_call (Settings.apply_call s c1) c2 =
   Settings.apply_call (Settings.apply_call s c2) c1) /\
  (Settings.call_key c1 = Settings.call_key c2 ->
   Settings.apply_call (Settings.apply_call s c1) c2 = Settings.apply_call s c2).
Proof.
  split; intros H; destruct c1, c2; cbn [Settings.call_key] in H;
    first [reflexivity | congruence | discriminate H].
Qed.

(** The serialized keys of [Settings] are those of its set fields, in
    declaration order. *)
Lemma settings_serialize_keys (s : Settings.Settings) :
  map fst (Settings.serialize s) = List.filter (Settings.key_set s) Settings.settings_keys.
Proof.
  destruct s as [[] [] [] [] [] [] [] [] [] []]; reflexivity.
Qed.

(** A builder call sets its own field and leaves the others' presence. *)
Lemma key_set_apply_call (s : Settings.Settings) (c : Settings.SettingsCall) (k : string) :
  Settings.key_set (Settings.apply_call s c) k =
  Settings.key_set s k || String.eqb k (Settings.call_key c).
Proof.
  destruct c; cbn [Settings.call_key Settings.apply_call]; unfold Settings.key_set;
  repeat match goal with
         | |- context [String.eqb k ?lit] =>
             let E := fresh "E" in
             destruct (String.eqb k lit) eqn:E; [apply String.eqb_eq in E; subst k |]
         end;
  cbn; rewrite ?orb_false_r, ?orb_true_r; reflexivity.
Qed.

Lemma key_set_fold (calls : list Settings.SettingsCall) (s : Settings.Settings) (k : string) :
  Settings.key_set (fold_left Settings.apply_call calls s) k =
  Settings.key_set s k || existsb (String.eqb k) (map Settings.call_key calls).
Proof.
  revert s. induction calls as [| c calls IH]; intros s; cbn.
  - rewrite orb_false_r. reflexivity.
  - rewrite IH, key_set_apply_call, orb_assoc. reflexivity.
Qed.

Lemma key_set_new (k : string) : Settings.key_set Settings.new k = false.
Proof.
  unfold Settings.key_set. cbn.
  repeat match goal with |- context [String.eqb k ?lit] => destruct (String.eqb k lit) end;
    reflexivity.
Qed.

(** Settings built from [Settings::new] by any sequence of builder calls
    serialize exactly the keys of the fields some call set, once each and
    in declaration order, whatever the order of the calls. *)
Theorem settings_serialized_keys (calls : list Settings.SettingsCall) :
  map fst (Settings.serialize (fold_left Settings.apply_call calls Settings.new)) =
  List.filter (fun k => existsb (String.eqb k) (map Settings.call_key calls))
    Settings.settings_keys.
Proof.
  rewrite settings_serialize_keys. apply List.filter_ext. intros k.
  rewrite key_set_fold, key_set_new. reflexivity.
Qed.

(** [DocumentsQuery] builders on different fields commute, a repeated one
    overrides, and the query string holds [offset], [limit] and [fields]
    in that order, each only when set. *)
Theorem documents_query_builders {Index : Type} (q : @Documents.DocumentsQuery Index)
    (c1 c2 : Documents.QueryCall) (calls : list Documents.QueryCall) :
  (Documents.query_call_key c1 <> Documents.query_call_key c2 ->
   Documents.apply_query_call (Documents.apply_query_call q c1) c2 =
   Documents.apply_query_call (Documents.apply_query_call q c2) c1) /\
  (Documents.query_call_key c1 = Documents.query_call_key c2 ->
   Documents.apply_query_call (Documents.apply_query_call q c1) c2 =
   Documents.apply_query_call q c2) /\
  map fst (Documents.serialize q) =
    List.filter (fun k =>
      if String.eqb k "offset" then match Documents.offset q with Some _ => true | None => false end
      else if String.eqb k "limit" then match Documents.limit q with Some _ => true | None => false end
      else match Documents.fields q with Some _ => true | None => false end)
    ["offset"; "limit"; "fields"].
Proof.
  split; [| split].
  - intros H; destruct c1, c2; cbn [Documents.query_call_key] in H;
      first [reflexivity | congruence].
  - intros H; destruct c1, c2; cbn [Documents.query_call_key] in H;
      first [reflexivity | discriminate H].
  - destruct q as [i [] [] []]; reflexivity.
Qed.


(** Pushing one field's names: [primary_key] sets the primary key to the
    field's name, and the key is unchanged when the field does not carry it. *)
Lemma push_attributes_pk (ident : option string) (names : list string)
    (st st' : MacroState) :
  push_attributes ident names st = Ok st' -> NoDup names ->
  (existsb (String.eqb "primary_key") names = true ->
   ident = Some (primary_key_attribute st')) /\
  (existsb (String.eqb "primary_key") names = false ->
   primary_key_attribute st' = primary_key_attribute st).
Proof.
  revert st. induction names as [| a0 rest IH]; intros st H Hnd.
  - cbn in H. injection H as <-. split; [discriminate | reflexivity].
  - apply NoDup_cons in Hnd as [Hnot Hnd].
    apply existsb_eqb_notin in Hnot.
    cbn [push_attributes] in H.
    destruct (String.eqb a0 "displayed") eqn:E1;
    [apply String.eqb_eq in E1; subst a0
    | destruct (String.eqb a0 "searchable") eqn:E2;
    [apply String.eqb_eq in E2; subst a0
    | destruct (String.eqb a0 "filterable") eqn:E3;
    [apply String.eqb_eq in E3; subst a0
    | destruct (String.eqb a0 "sortable") eqn:E4;
    [apply String.eqb_eq in E4; subst a0
    | destruct (String.eqb a0 "primary_key") eqn:E5;
    [apply String.eqb_eq in E5; subst a0
    | destruct (String.eqb a0 "distinct") eqn:E6;
    [apply String.eqb_eq in E6; subst a0 | ]]]]]];
    cbv beta iota in H;
    try (destruct ident as [n |]; [| discriminate H]);
    apply IH in H as (Hd1 & Hd2); try exact Hnd.
  all: cbn [existsb primary_key_attribute] in Hd2 |- *;
       eqb_false_rw; eqb_lit_rw; cbn [orb].
  all: first [ split; [exact Hd1 | exact Hd2]
             | split; [intros _; rewrite (Hd2 Hnot); reflexivity | discriminate] ].
Qed.

(** A tuple field (no identifier) is pushed without panicking only if none
    of its names is a valid annotation. *)
Lemma push_attributes_unnamed (names : list string) (st st' : MacroState) :
  push_attributes None names st = Ok st' ->
  forall x, In x names -> x ∉ valid_attribute_names.
Proof.
  revert st. induction names as [| a0 rest IH]; intros st H x Hx; [destruct Hx |].
  cbn [push_attributes] in H.
  destruct (String.eqb a0 "displayed") eqn:E1; [discriminate H |].
  destruct (String.eqb a0 "searchable") eqn:E2; [discriminate H |].
  destruct (String.eqb a0 "filterable") eqn:E3; [discriminate H |].
  destruct (String.eqb a0 "sortable") eqn:E4; [discriminate H |].
  destruct (String.eqb a0 "primary_key") eqn:E5; [discriminate H |].
  destruct (String.eqb a0 "distinct") eqn:E6; [discriminate H |].
  destruct Hx as [<- | Hx]; [| exact (IH st H x Hx)].
  unfold valid_attribute_names. rewrite elem_of_list_to_set.
  intros Hin. repeat (apply elem_of_cons in Hin as [Hin | Hin];
    [subst; match goal with E : String.eqb ?l ?l = false |- _ =>
                 rewrite String.eqb_refl in E; discriminate E end |]).
  apply elem_of_nil in Hin. exact Hin.
Qed.

(** The field loop and the primary key: once in the set, no later field
    carries [primary_key]; the key is the name of the field carrying it, and
    unchanged when none does. *)
Lemma process_fields_pk (fields : list Field) (st st' : MacroState) :
  process_fields fields st = Ok st' ->
  ("primary_key" ∈ attribute_set st -> forall f, In f fields -> carries "primary_key" f = false) /\
  ((forall f, In f fields -> carries "primary_key" f = false) ->
   primary_key_attribute st' = primary_key_attribute st) /\
  (forall f, In f fields -> carries "primary_key" f = true ->
   field_ident f = Some (primary_key_attribute st')).
Proof.
  revert st. induction fields as [| f rest IH]; intros st H.
  - cbn in H. injection H as <-.
    split; [intros _ f [] |]. split; [reflexivity | intros f []].
  - cbn [process_fields] in H.
    destruct (extract_all_attr_values (attrs f) (attribute_set st) valid_attribute_names)
      as [[s1 ann] | e] eqn:Hx; [| discriminate H].
    unfold extract_all_attr_values in Hx.
    apply extract_attrs_ok in Hx as (Hann & Hs1 & (Hnd & _ & _ & Hpk & _)).
    cbn in Hann. subst ann s1.
    destruct (push_attributes (field_ident f) (annotations (attrs f)) _) as [st2 | e] eqn:Hp;
      [| discriminate H].
    pose proof Hp as Hp'.
    apply push_attributes_ok in Hp' as (Hs2 & _); [| exact Hnd].
    apply push_attributes_pk in Hp as (Hk1 & Hk2); [| exact Hnd].
    apply IH in H as (Hb & Hc & Hd).
    cbn [attribute_set primary_key_attribute] in Hs2, Hk2.
    assert (Hcar : forall a, carries a f = existsb (String.eqb a) (annotations (attrs f)))
      by reflexivity.
    split; [| split].
    + intros Hin g [<- | Hg].
      * rewrite Hcar. apply existsb_eqb_notin. exact (Hpk Hin).
      * apply Hb; [rewrite Hs2; set_solver | exact Hg].
    + intros Hno. rewrite Hc by (intros g Hg; apply Hno; right; exact Hg).
      apply Hk2. rewrite <- Hcar. apply Hno. left. reflexivity.
    + intros g [<- | Hg] Hgc.
      * rewrite Hcar in Hgc. rewrite (Hk1 Hgc). f_equal. symmetry. apply Hc.
        intros g Hg. apply Hb; [| exact Hg]. rewrite Hs2.
        apply elem_of_union_l. apply elem_of_list_to_set.
        apply existsb_exists in Hgc as (y & Hy & Hye). apply String.eqb_eq in Hye.
        subst y. apply list_elem_of_In. exact Hy.
      * apply Hd; assumption.
Qed.

(** The field loop accepts [primary_key] and [distinct] on one field at
    most, and an annotated field always has a name. *)
Lemma process_fields_once (fields : list Field) (st st' : MacroState) :
  process_fields fields st = Ok st' ->
  (forall a, a = "primary_key" \/ a = "distinct" ->
     (a ∈ attribute_set st -> forall f, In f fields -> carries a f = false) /\
     (length (List.filter (carries a) fields) <= 1)%nat) /\
  (forall f, In f fields -> field_annotations f <> [] -> field_ident f <> None).
Proof.
  revert st. induction fields as [| f rest IH]; intros st H.
  - split; [intros a _; split; [intros _ f [] | cbn; lia] | intros f []].
  - cbn [process_fields] in H.
    destruct (extract_all_attr_values (attrs f) (attribute_set st) valid_attribute_names)
      as [[s1 ann] | e] eqn:Hx; [| discriminate H].
    unfold extract_all_attr_values in Hx.
    apply extract_attrs_ok in Hx as (Hann & Hs1 & (Hnd & _ & Hval & Hpk & Hdis)).
    cbn in Hann. subst ann s1.
    destruct (push_attributes (field_ident f) (annotations (attrs f)) _) as [st2 | e] eqn:Hp;
      [| discriminate H].
    pose proof Hp as Hp'.
    apply push_attributes_ok in Hp' as (Hs2 & _); [| exact Hnd].
    apply IH in H as (Hb & Hnamed).
    cbn [attribute_set] in Hs2.
    assert (Hcar : forall a, carries a f = existsb (String.eqb a) (annotations (attrs f)))
      by reflexivity.
    split.
    + intros a Ha. destruct (Hb a Ha) as (Hb1 & Hb2).
      assert (Hnot : a ∈ attribute_set st -> a ∉ annotations (attrs f))
        by (destruct Ha as [-> | ->]; assumption).
      split.
      * intros Hin g [<- | Hg].
        -- rewrite Hcar. apply existsb_eqb_notin. exact (Hnot Hin).
        -- apply Hb1; [rewrite Hs2; set_solver | exact Hg].
      * cbn [List.filter]. destruct (carries a f) eqn:Hfc; [| exact Hb2].
        assert (Hrest : List.filter (carries a) rest = []).
        { rewrite (List.filter_ext_in (carries a) (fun _ => false)); [apply List.filter_false |].
          intros g Hg. apply Hb1; [| exact Hg]. rewrite Hs2.
          apply elem_of_union_l. apply elem_of_list_to_set.
          rewrite Hcar in Hfc. apply existsb_exists in Hfc as (y & Hy & Hye).
          apply String.eqb_eq in Hye. subst y. apply list_elem_of_In. exact Hy. }
        rewrite Hrest. cbn. lia.
    + intros g [<- | Hg] Hne; [| exact (Hnamed g Hg Hne)].
      intros Hid. unfold field_annotations in Hne.
      destruct (annotations (attrs f)) as [| x xs] eqn:Ea; [exact (Hne eq_refl) |].
      rewrite Hid in Hp.
      apply (push_attributes_unnamed _ _ _ Hp x (or_introl eq_refl)).
      apply Hval. apply elem_of_cons. left. reflexivity.
Qed.

(** With no field named with the empty string, a key left at [""] means
    no field carries its annotation. *)
Lemma key_empty_iff (fields : list Field) (a k : string)
    (Hnames : Forall (fun f => field_ident f <> Some "") fields)
    (Hc : (forall f, In f fields -> carries a f = false) -> k = "")
    (Hd : forall f, In f fields -> carries a f = true -> field_ident f = Some k) :
  String.eqb k "" = negb (existsb (carries a) fields).
Proof.
  destruct (existsb (carries a) fields) eqn:Hex; cbn.
  - apply existsb_exists in Hex as (f & Hf & Hfc). apply String.eqb_neq. intros Hk.
    rewrite List.Forall_forall in Hnames. apply (Hnames f Hf). rewrite (Hd f Hf Hfc), Hk.
    reflexivity.
  - apply String.eqb_eq. apply Hc. intros f Hf.
    destruct (carries a f) eqn:Hfc; [| reflexivity].
    rewrite <- Hex. symmetry. apply existsb_exists. exists f. auto.
Qed.

(** The primary key the derive passes to [create_index] is [Some n]
    exactly when a field named [n] carries [primary_key] (fields with
    non-empty names). *)
Theorem generate_index_primary_key (fields : list Field) (cfg : IndexConfigImpl)
    (Hok : get_index_config_implementation fields = Ok cfg)
    (Hnames : Forall (fun f => field_ident f <> Some "") fields) (n : string) :
  primary_key_token cfg = Some n <->
  exists f, In f fields /\ carries "primary_key" f = true /\ field_ident f = Some n.
Proof.
  unfold get_index_config_implementation in Hok.
  destruct (process_fields fields init_state) as [st | e] eqn:Hp; [| discriminate Hok].
  injection Hok as <-. cbn [primary_key_token].
  apply process_fields_pk in Hp as (_ & Hc & Hd).
  rewrite (key_empty_iff fields "primary_key" _ Hnames Hc Hd).
  split.
  - destruct (existsb (carries "primary_key") fields) eqn:Hex; cbn; [| discriminate].
    intros Hn. injection Hn as <-.
    apply existsb_exists in Hex as (f & Hf & Hfc). exists f. auto.
  - intros (f & Hf & Hfc & Hfn).
    assert (Hex : existsb (carries "primary_key") fields = true)
      by (apply existsb_exists; exists f; auto).
    rewrite Hex. cbn. rewrite (Hd f Hf Hfc) in Hfn. exact Hfn.
Qed.

(** [MovieClips]: the primary key is [movie_id]. *)
Lemma generate_index_primary_key_witness :
  exists cfg, get_index_config_implementation movie_clips_fields = Ok cfg /\
  primary_key_token cfg = Some "movie_id".
Proof.
  destruct (get_index_config_implementation movie_clips_fields) as [cfg | e] eqn:Hg;
    [| vm_compute in Hg; discriminate Hg].
  exists cfg. split; [reflexivity |].
  apply (generate_index_primary_key movie_clips_fields cfg Hg
    ltac:(repeat constructor; discriminate)).
  exists (nth 0 movie_clips_fields {| field_ident := None; attrs := [] |}).
  split; [left; reflexivity | split; reflexivity].
Defined.

(** The field loop over a concatenation runs over each part in turn. *)
Lemma process_fields_app (l1 l2 : list Field) (st : MacroState) :
  process_fields (l1 ++ l2) st =
  match process_fields l1 st with Ok st' => process_fields l2 st' | Err e => Err e end.
Proof.
  revert st. induction l1 as [| f l1 IH]; intros st; [reflexivity |].
  cbn [app process_fields].
  destruct (extract_all_attr_values (attrs f) (attribute_set st) valid_attribute_names)
    as [[s1 ann] | e]; [| reflexivity].
  destruct (push_attributes (field_ident f) ann _); [apply IH | reflexivity].
Qed.

(** A tuple field with a valid annotation panics at [unwrap]. *)
Lemma push_attributes_none_valid (x : string) (rest : list string) (st : MacroState) :
  x ∈ valid_attribute_names -> push_attributes None (x :: rest) st = Err Panic.
Proof.
  unfold valid_attribute_names. rewrite elem_of_list_to_set. intros Hx.
  repeat (apply elem_of_cons in Hx as [-> | Hx]; [reflexivity |]).
  apply elem_of_nil in Hx. contradiction.
Qed.

(** When the derive expands without error, at most one field carries
    [primary_key], at most one carries [distinct], and every field with an
    [index_config] annotation is named. A tuple field reached by the loop
    whose annotations pass the checks and are non-empty makes the
    expansion panic. *)
Theorem index_config_annotations_checked (fields : list Field) :
  (forall cfg, get_index_config_implementation fields = Ok cfg ->
   (length (List.filter (carries "primary_key") fields) <= 1)%nat /\
   (length (List.filter (carries "distinct") fields) <= 1)%nat /\
   (forall f, In f fields -> field_annotations f <> [] -> field_ident f <> None)) /\
  (forall pre f post st s' names,
     fields = (pre ++ f :: post)%list ->
     process_fields pre init_state = Ok st ->
     field_ident f = None ->
     extract_all_attr_values (attrs f) (attribute_set st) valid_attribute_names = Ok (s', names) ->
     names <> [] ->
     get_index_config_implementation fields = Err Panic).
Proof.
  split.
  - intros cfg Hok. unfold get_index_config_implementation in Hok.
    destruct (process_fields fields init_state) as [st | e] eqn:Hp; [| discriminate Hok].
    apply process_fields_once in Hp as (Ha & Hn).
    split; [apply (Ha "primary_key"); left; reflexivity |].
    split; [apply (Ha "distinct"); right; reflexivity | exact Hn].
  - intros pre f post st s' names -> Hpre Hid Hx Hne.
    unfold get_index_config_implementation. rewrite process_fields_app, Hpre.
    cbn [process_fields]. rewrite Hx, Hid.
    pose proof Hx as Hx'. unfold extract_all_attr_values in Hx'.
    apply extract_attrs_ok in Hx' as (_ & _ & (_ & _ & Hval & _)).
    unfold extract_all_attr_values in Hx. apply extract_attrs_ok in Hx as (Hn & _).
    cbn in Hn. subst names.
    destruct (annotations (attrs f)) as [| x xs] eqn:Ea; [contradiction |].
    rewrite push_attributes_none_valid; [reflexivity |].
    apply Hval. apply elem_of_cons. left. reflexivity.
Qed.

(** [MovieClips] expands without error; a tuple field annotated
    [displayed] after a named primary key panics. *)
Lemma index_config_annotations_checked_witness :
  (exists cfg, get_index_config_implementation movie_clips_fields = Ok cfg /\
   (length (List.filter (carries "primary_key") movie_clips_fields) <= 1)%nat) /\
  get_index_config_implementation
    [{| field_ident := Some "id"; attrs := [index_config_attr ["primary_key"]] |};
     {| field_ident := None; attrs := [index_config_attr ["displayed"]] |}] = Err Panic.
Proof.
  split.
  - destruct (get_index_config_implementation movie_clips_fields) as [cfg | e] eqn:Hg;
      [| vm_compute in Hg; discriminate Hg].
    exists cfg. split; [reflexivity |].
    exact (proj1 (proj1 (index_config_annotations_checked movie_clips_fields) cfg Hg)).
  - destruct (process_fields
        [{| field_ident := Some "id"; attrs := [index_config_attr ["primary_key"]] |}]
        init_state) as [st | e] eqn:Hpre; [| vm_compute in Hpre; discriminate Hpre].
    apply (proj2 (index_config_annotations_checked _)
      [{| field_ident := Some "id"; attrs := [index_config_attr ["primary_key"]] |}]
      {| field_ident := None; attrs := [index_config_attr ["displayed"]] |} []
      st ({[ "displayed" ]} ∪ attribute_set st) ["displayed"] eq_refl Hpre eq_refl).
    + vm_compute in Hpre. injection Hpre as <-. vm_compute. reflexivity.
    + discriminate.
Defined.

(** [generate_settings()] always sends the filterable, sortable,
    searchable and displayed lists, even empty, sends the distinct attribute
    only when a field carries [distinct], and never sends synonyms, stop
    words, ranking rules, pagination or faceting. *)
Theorem generate_settings_keys (fields : list Field) (cfg : IndexConfigImpl)
    (Hok : get_index_config_implementation fields = Ok cfg)
    (Hnames : Forall (fun f => field_ident f <> Some "") fields) :
  map fst (Settings.serialize (generate_settings cfg)) =
    (["filterableAttributes"; "sortableAttributes"] ++
     (if existsb (carries "distinct") fields then ["distinctAttribute"] else []) ++
     ["searchableAttributes"; "displayedAttributes"])%list.
Proof.
  unfold get_index_config_implementation in Hok.
  destruct (process_fields fields init_state) as [st | e] eqn:Hp; [| discriminate Hok].
  injection Hok as <-. cbn [generate_settings].
  apply process_fields_ok in Hp as (_ & _ & Hc & Hd).
  unfold settings_token_for_string.
  rewrite (key_empty_iff fields "distinct" _ Hnames Hc Hd).
  destruct (existsb (carries "distinct") fields); reflexivity.
Qed.

(** [MovieClips] sends the distinct attribute. *)
Lemma generate_settings_keys_witness :
  exists cfg, get_index_config_implementation movie_clips_fields = Ok cfg /\
  map fst (Settings.serialize (generate_settings cfg)) =
    ["filterableAttributes"; "sortableAttributes"; "distinctAttribute";
     "searchableAttributes"; "displayedAttributes"].
Proof.
  destruct (get_index_config_implementation movie_clips_fields) as [cfg | e] eqn:Hg;
    [| vm_compute in Hg; discriminate Hg].
  exists cfg. split; [reflexivity |].
  exact (generate_settings_keys movie_clips_fields cfg Hg
    ltac:(repeat constructor; discriminate)).
Defined.

Lemma string_app_inj (p a b : string) : p ++ a = p ++ b -> a = b.
Proof.
  induction p as [| c p IH]; cbn; [trivial |]. intros H. injection H. exact IH.
Qed.

Lemma NoDup_map_injective {A C : Type} (f : A -> C) (l : list A) :
  (forall x y, f x = f y -> x = y) -> NoDup l -> NoDup (map f l).
Proof.
  intros Hf. induction 1 as [| x l Hx Hl IH]; cbn; constructor; [| exact IH].
  intros Hin. apply list_elem_of_In in Hin. apply in_map_iff in Hin as (y & Hy & Hyl).
  apply Hf in Hy. subst y. apply Hx. apply list_elem_of_In. exact Hyl.
Qed.

Import IndexSettings.

(** The eleven settings resources of an index have pairwise distinct
    urls under [/indexes/{uid}/settings], and the getter, setter and reset
    of each resource use the same url. *)
Theorem settings_endpoint_urls (self : IndexHandle) (settings : Settings.Settings)
    (synonyms : gmap string (list string)) (pagination : Settings.PaginationSetting)
    (stop_words ranking_rules filterable_attributes sortable_attributes : list string)
    (distinct_attribute : string) (searchable_attributes displayed_attributes : list string)
    (faceting : Settings.FacetingSettings) :
  map call_url [get_settings self; get_synonyms self; get_pagination self; get_stop_words self;
                get_ranking_rules self; get_filterable_attributes self;
                get_sortable_attributes self; get_distinct_attribute self;
                get_searchable_attributes self; get_displayed_attributes self;
                get_faceting self] =
    map (fun sfx => host self ++ "/indexes/" ++ uid self ++ "/settings" ++ sfx)
      settings_suffixes /\
  NoDup (map call_url [get_settings self; get_synonyms self; get_pagination self;
                       get_stop_words self; get_ranking_rules self;
                       get_filterable_attributes self; get_sortable_attributes self;
                       get_distinct_attribute self; get_searchable_attributes self;
                       get_displayed_attributes self; get_faceting self]) /\
  map call_url [get_settings self; get_synonyms self; get_pagination self; get_stop_words self;
                get_ranking_rules self; get_filterable_attributes self;
                get_sortable_attributes self; get_distinct_attribute self;
                get_searchable_attributes self; get_displayed_attributes self;
                get_faceting self] =
    [call_url (set_settings self settings); call_url (set_synonyms self synonyms);
     call_url (set_pagination self pagination); call_url (set_stop_words self stop_words);
     call_url (set_ranking_rules self ranking_rules);
     call_url (set_filterable_attributes self filterable_attributes);
     call_url (set_sortable_attributes self sortable_attributes);
     call_url (set_distinct_attribute self distinct_attribute);
     call_url (set_searchable_attributes self searchable_attributes);
     call_url (set_displayed_attributes self displayed_attributes);
     call_url (set_faceting self faceting)] /\
  map call_url [get_settings self; get_synonyms self; get_pagination self; get_stop_words self;
                get_ranking_rules self; get_filterable_attributes self;
                get_sortable_attributes self; get_distinct_attribute self;
                get_searchable_attributes self; get_displayed_attributes self;
                get_faceting self] =
  map call_url [reset_settings self; reset_synonyms self; reset_pagination self;
                reset_stop_words self; reset_ranking_rules self;
                reset_filterable_attributes self; reset_sortable_attributes self;
                reset_distinct_attribute self; reset_searchable_attributes self;
                reset_displayed_attributes self; reset_faceting self].
Proof.
  assert (Hurl : map call_url [get_settings self; get_synonyms self; get_pagination self;
                get_stop_words self; get_ranking_rules self; get_filterable_attributes self;
                get_sortable_attributes self; get_distinct_attribute self;
                get_searchable_attributes self; get_displayed_attributes self;
                get_faceting self] =
    map (fun sfx => host self ++ "/indexes/" ++ uid self ++ "/settings" ++ sfx)
      settings_suffixes) by reflexivity.
  split; [exact Hurl |]. split; [| split; reflexivity].
  rewrite Hurl. apply NoDup_map_injective.
  - intros x y H. apply string_app_inj, string_app_inj, string_app_inj, string_app_inj in H.
    exact H.
  - apply (bool_decide_unpack _). vm_compute. reflexivity.
Qed.
